(** * Enrolment analytics pipeline ([data_pipeline.py]): a shallow embedding

    The pipeline reads a table of enrolment rows, keeps the rows of one
    state, builds three aggregates (state level per date, district per
    date, pincode per date) and derives indicators from them.

    Modelling conventions.
    - A data frame is a list of records, in row order.
    - A missing cell (NaN, NaT) is [None].
    - Enrolment counts are integers ([Z]); the floating-point values the
      code derives from them (means, ratios, variances) are exact rationals
      ([Q]) extended with the two infinities and NaN ([fval]).
    - An age column is a 64-bit integer column or a float column. A float
      column holds its numbers rounded to 53 significant bits ([round53]).
      The row total of a frame whose three age columns are integer columns
      is an int64 sum and wraps around ([wrap64]); when one of them is a
      float column the total is a float64 sum, each step rounded. The sums
      of the aggregates are modelled by exact sums, which they are in the
      code while they stay below 2^53.
    - The numerals of the age columns are integers of the int64 range: a
      file with a decimal, an infinite or a larger numeral is outside the
      model.
    - A text is a [string] whose characters are the code points 0..255.
    - [groupby] yields its groups in ascending key order, as pandas does
      with its default [sort=True]. *)

From Stdlib Require Import String Ascii.
From Stdlib Require Import ZArith QArith Bool Lia Lqa List Permutation Sorted.
Import ListNotations.

Local Open Scope Z_scope.

(** ** Ordered keys *)

Class OrdKey (K : Type) : Type := {
  cmp : K -> K -> comparison;
  cmp_eq : forall a b, cmp a b = Eq <-> a = b;
  cmp_antisym : forall a b, cmp b a = CompOpp (cmp a b);
  cmp_trans : forall a b c, cmp a b = Lt -> cmp b c = Lt -> cmp a c = Lt
}.

Definition keqb {K} `{OrdKey K} (a b : K) : bool :=
  match cmp a b with Eq => true | _ => false end.

Definition kltb {K} `{OrdKey K} (a b : K) : bool :=
  match cmp a b with Lt => true | _ => false end.

Definition lex_cmp {A B} (ca : A -> A -> comparison) (cb : B -> B -> comparison)
    (x y : A * B) : comparison :=
  match ca (fst x) (fst y) with
  | Eq => cb (snd x) (snd y)
  | c => c
  end.

(** ** Calendar dates *)

Record Date : Type := mkDate { year : Z; month : Z; day : Z }.

Definition date_cmp (a b : Date) : comparison :=
  match year a ?= year b with
  | Eq => match month a ?= month b with
          | Eq => day a ?= day b
          | c => c
          end
  | c => c
  end.

(** ** Texts: [str.lower] and [str.strip] on code points 0..255 *)

Definition lower_char (c : ascii) : ascii :=
  let n := N_of_ascii c in
  if ((65 <=? n) && (n <=? 90))%N then ascii_of_N (n + 32)
  else if ((192 <=? n) && (n <=? 222) && negb (n =? 215))%N then ascii_of_N (n + 32)
  else c.

Fixpoint lower (s : string) : string :=
  match s with
  | EmptyString => EmptyString
  | String c t => String (lower_char c) (lower t)
  end.

Definition isspace (c : ascii) : bool :=
  let n := N_of_ascii c in
  (((9 <=? n) && (n <=? 13)) || ((28 <=? n) && (n <=? 32))
   || (n =? 133) || (n =? 160))%N.

Fixpoint lstrip (s : string) : string :=
  match s with
  | EmptyString => EmptyString
  | String c t => if isspace c then lstrip t else s
  end.

Fixpoint rstrip (s : string) : string :=
  match s with
  | EmptyString => EmptyString
  | String c t =>
      match rstrip t with
      | EmptyString => if isspace c then EmptyString else String c EmptyString
      | t' => String c t'
      end
  end.

Definition strip (s : string) : string := rstrip (lstrip s).

(** ** Order instances *)

Lemma Zcmp_trans (a b c : Z) : (a ?= b) = Lt -> (b ?= c) = Lt -> (a ?= c) = Lt.
Proof. rewrite !Z.compare_lt_iff. lia. Qed.

#[export] Program Instance OrdKey_Z : OrdKey Z := {| cmp := Z.compare |}.
Next Obligation. apply Z.compare_eq_iff. Qed.
Next Obligation. apply Z.compare_antisym. Qed.
Next Obligation. eapply Zcmp_trans; eassumption. Qed.

Lemma ascii_cmp_trans (a b c : ascii) :
  Ascii.compare a b = Lt -> Ascii.compare b c = Lt -> Ascii.compare a c = Lt.
Proof. unfold Ascii.compare. rewrite !N.compare_lt_iff. lia. Qed.

Lemma ascii_cmp_refl (a : ascii) : Ascii.compare a a = Eq.
Proof. unfold Ascii.compare. apply N.compare_refl. Qed.

Lemma string_cmp_refl (s : string) : String.compare s s = Eq.
Proof. induction s as [|c s IH]; simpl; [reflexivity|]. now rewrite ascii_cmp_refl. Qed.

Lemma string_cmp_trans (a b c : string) :
  String.compare a b = Lt -> String.compare b c = Lt -> String.compare a c = Lt.
Proof.
  revert b c. induction a as [|x a IH]; intros [|y b] [|z c]; simpl; try congruence.
  destruct (Ascii.compare x y) eqn:Exy; try discriminate.
  - apply Ascii.compare_eq_iff in Exy. subst y.
    destruct (Ascii.compare x z) eqn:Exz; try congruence.
    intros. eapply IH; eassumption.
  - intros _. destruct (Ascii.compare y z) eqn:Eyz; try discriminate.
    + apply Ascii.compare_eq_iff in Eyz. subst z. now rewrite Exy.
    + intros _. now rewrite (ascii_cmp_trans _ _ _ Exy Eyz).
Qed.

#[export] Program Instance OrdKey_string : OrdKey string := {| cmp := String.compare |}.
Next Obligation.
  split; [apply String.compare_eq_iff | intros ->; apply string_cmp_refl].
Qed.
Next Obligation. apply String.compare_antisym. Qed.
Next Obligation. eapply string_cmp_trans; eassumption. Qed.

Lemma cmp_refl {K} `{OrdKey K} (a : K) : cmp a a = Eq.
Proof. now apply cmp_eq. Qed.

Section LexOrder.
Context {A B : Type} `{OrdKey A} `{OrdKey B}.

Lemma lex_cmp_eq (x y : A * B) : lex_cmp cmp cmp x y = Eq <-> x = y.
Proof.
  destruct x as [a b], y as [a' b']. unfold lex_cmp. simpl. split.
  - destruct (cmp a a') eqn:E; try discriminate.
    intros E'. apply cmp_eq in E, E'. now subst.
  - intros [= -> ->]. now rewrite !cmp_refl.
Qed.

Lemma lex_cmp_antisym (x y : A * B) :
  lex_cmp cmp cmp y x = CompOpp (lex_cmp cmp cmp x y).
Proof.
  destruct x as [a b], y as [a' b']. unfold lex_cmp. simpl.
  rewrite (cmp_antisym a a'). destruct (cmp a a'); simpl; auto using cmp_antisym.
Qed.

Lemma lex_cmp_trans (x y z : A * B) :
  lex_cmp cmp cmp x y = Lt -> lex_cmp cmp cmp y z = Lt -> lex_cmp cmp cmp x z = Lt.
Proof.
  destruct x as [a b], y as [a' b'], z as [a'' b'']. unfold lex_cmp. simpl.
  destruct (cmp a a') eqn:E1; try discriminate;
    destruct (cmp a' a'') eqn:E2; try discriminate; intros H1 H2.
  - apply cmp_eq in E1, E2. subst. rewrite cmp_refl. eapply cmp_trans; eassumption.
  - apply cmp_eq in E1. subst. now rewrite E2.
  - apply cmp_eq in E2. subst. now rewrite E1.
  - now rewrite (cmp_trans _ _ _ E1 E2).
Qed.

#[export] Instance OrdKey_pair : OrdKey (A * B) :=
  {| cmp := lex_cmp cmp cmp;
     cmp_eq := lex_cmp_eq;
     cmp_antisym := lex_cmp_antisym;
     cmp_trans := lex_cmp_trans |}.
End LexOrder.

Definition date_tuple (d : Date) : Z * (Z * Z) := (year d, (month d, day d)).

Lemma date_cmp_lex (a b : Date) : date_cmp a b = cmp (date_tuple a) (date_tuple b).
Proof. reflexivity. Qed.

Lemma date_tuple_inj (a b : Date) : date_tuple a = date_tuple b -> a = b.
Proof. destruct a, b. unfold date_tuple. simpl. now intros [= -> -> ->]. Qed.

#[export] Program Instance OrdKey_Date : OrdKey Date := {| cmp := date_cmp |}.
Next Obligation.
  rewrite date_cmp_lex, cmp_eq. split; [apply date_tuple_inj | now intros ->].
Qed.
Next Obligation. rewrite !date_cmp_lex. apply cmp_antisym. Qed.
Next Obligation. rewrite date_cmp_lex in *. eapply cmp_trans; eassumption. Qed.

(** ** Group-by with aggregation

    [df.groupby(key).agg(...)]: one output row per distinct key, keys in
    ascending order; each aggregate sees the rows of its group in their
    original order. *)

Section GroupBy.
Context {K : Type} `{OrdKey K}.

Fixpoint insert_key (k : K) (ks : list K) : list K :=
  match ks with
  | [] => [k]
  | h :: t =>
      match cmp k h with
      | Lt => k :: ks
      | Eq => ks
      | Gt => h :: insert_key k t
      end
  end.

(** Keys in strictly ascending order. *)
Definition ascending (ks : list K) : Prop :=
  StronglySorted (fun a b => cmp a b = Lt) ks.

Context {A : Type} (key : A -> K).

Definition group_keys (rows : list A) : list K :=
  fold_right (fun r ks => insert_key (key r) ks) [] rows.

Definition group_rows (k : K) (rows : list A) : list A :=
  filter (fun r => keqb (key r) k) rows.

Definition groupby (rows : list A) : list (K * list A) :=
  map (fun k => (k, group_rows k rows)) (group_keys rows).

Definition groupby_agg {B : Type} (agg : K -> list A -> B) (rows : list A) : list B :=
  map (fun kg => agg (fst kg) (snd kg)) (groupby rows).
End GroupBy.

(** ** Sums *)

Definition sumZ (xs : list Z) : Z := fold_right Z.add 0 xs.

(** [sum] with [skipna=True]: missing entries are left out; the sum of no
    entry is 0. *)
Definition nansum (xs : list (option Z)) : Z :=
  fold_right (fun o acc => match o with Some v => v + acc | None => acc end) 0 xs.

(** ** Loader / cleaner *)

(** An age cell as read from the file: an integer numeral, a text that is
    not a numeral, or nothing. [pd.to_numeric] also reads decimal and
    infinite numerals; the model has no such cell, and every number of a
    modelled file is an integer. *)
Inductive cell : Type :=
| Number (n : Z)
| NonNumeric (s : string)
| Blank.

Definition is_number (c : cell) : bool :=
  match c with Number _ => true | _ => false end.

Definition is_text (c : cell) : bool :=
  match c with NonNumeric _ => true | _ => false end.

Definition is_blank (c : cell) : bool :=
  match c with Blank => true | _ => false end.

(** [pd.to_numeric(col, errors='coerce')] *)
Definition to_numeric (c : cell) : option Z :=
  match c with
  | Number n => Some n
  | NonNumeric _ => None
  | Blank => None
  end.

(** A row after [pd.read_csv], the column renaming and
    [pd.to_datetime(..., errors='coerce')]: [raw_date] is [None] for a
    blank or unparsable date (NaT). [raw_district] and [raw_pincode] hold
    the text that [astype(str)] gives the cell in this file, [None] for a
    blank cell: the text of a pincode depends on the other cells of its
    column (a blank one makes pandas read the column as floats, and
    [411001] is then rendered [411001.0]), so that the same line read as
    part of another file may be another [RawRow]. *)
Record RawRow : Type := mkRaw {
  raw_date : option Date;
  raw_state : option string;
  raw_district : option string;
  raw_pincode : option string;
  raw_age_0_5 : cell;
  raw_age_5_17 : cell;
  raw_age_18_greater : cell
}.

Record Row : Type := mkRow {
  date : Date;
  district : string;
  pincode : string;
  age_0_5 : option Z;
  age_5_17 : option Z;
  age_18_greater : option Z;
  total_enrolments : Z
}.

(** [df['state'].str.strip().str.lower() == state_filter.lower()];
    a missing state compares unequal. *)
Definition state_matches (state_filter : string) (r : RawRow) : bool :=
  match raw_state r with
  | Some s => String.eqb (lower (strip s)) (lower state_filter)
  | None => false
  end.

(** int64 arithmetic: the sum modulo 2^64, read as a signed number. *)
Definition wrap64 (z : Z) : Z := (z + 2 ^ 63) mod 2 ^ 64 - 2 ^ 63.

(** float64 arithmetic on integers: the nearest integer with 53 significant
    bits, a tie going to the even one. Integers below 2^53 are exact. *)
Definition round53 (z : Z) : Z :=
  let a := Z.abs z in
  if a <? 2 ^ 53 then z
  else
    let e := Z.log2 a - 52 in
    let q := a / 2 ^ e in
    let r := a mod 2 ^ e in
    let half := 2 ^ (e - 1) in
    let q' := if (half <? r) || ((r =? half) && Z.odd q) then q + 1 else q in
    Z.sgn z * (q' * 2 ^ e).

(** The float64 sum of the cells of a row, a missing one counting as 0.0:
    the cells are converted and added from left to right. *)
Definition float_sum (xs : list (option Z)) : Z :=
  fold_left (fun acc o => round53 (acc + round53 (match o with Some v => v | None => 0 end)))
    xs 0.

(** Whether an age column of the selected rows is an int64 column after
    [pd.to_numeric(col, errors='coerce')]. [read_csv] reads a column of
    integer numerals as int64, a column with a blank cell (and no text) as
    float64, and a column with a text cell as text; [to_numeric] leaves the
    first two as they are and turns the selected cells of a text column
    into int64 when each of them is an integer numeral, into float64
    otherwise. [raw] is the whole file, [selected] the rows of the state. *)
Definition int_column (col : RawRow -> cell) (raw selected : list RawRow) : bool :=
  if existsb (fun r => is_text (col r)) raw
  then forallb (fun r => is_number (col r)) selected
  else negb (existsb (fun r => is_blank (col r)) raw).

(** The number types of the three age columns. *)
Record AgeTypes : Type := mkTypes {
  int_0_5 : bool;
  int_5_17 : bool;
  int_18_greater : bool
}.

Definition age_types (raw selected : list RawRow) : AgeTypes :=
  mkTypes (int_column raw_age_0_5 raw selected)
    (int_column raw_age_5_17 raw selected)
    (int_column raw_age_18_greater raw selected).

(** What a column of the given number type holds for a coerced cell. *)
Definition column_value (int64 : bool) (o : option Z) : option Z :=
  match o with
  | Some n => Some (if int64 then n else round53 n)
  | None => None
  end.

(** Numeric coercion, row total, [dropna(subset=['date','district','pincode'])]
    and the trimming of the two identifiers, for one row.
    [df[['age_0_5','age_5_17','age_18_greater']].sum(axis=1)] is an int64
    sum when the three columns are int64 columns, a float sum otherwise. *)
Definition clean_row (types : AgeTypes) (r : RawRow) : option Row :=
  let a := column_value (int_0_5 types) (to_numeric (raw_age_0_5 r)) in
  let b := column_value (int_5_17 types) (to_numeric (raw_age_5_17 r)) in
  let c := column_value (int_18_greater types) (to_numeric (raw_age_18_greater r)) in
  let total :=
    if int_0_5 types && int_5_17 types && int_18_greater types
    then wrap64 (nansum [a; b; c])
    else float_sum [a; b; c] in
  match raw_date r, raw_district r, raw_pincode r with
  | Some d, Some di, Some p => Some (mkRow d (strip di) (strip p) a b c total)
  | _, _, _ => None
  end.

Fixpoint dropna {A B : Type} (f : A -> option B) (xs : list A) : list B :=
  match xs with
  | [] => []
  | x :: t => match f x with
              | Some y => y :: dropna f t
              | None => dropna f t
              end
  end.

Definition clean (raw : list RawRow) (state_filter : string) : list Row :=
  let selected := filter (state_matches state_filter) raw in
  dropna (clean_row (age_types raw selected)) selected.

(** ** Aggregator *)

Record MonthlyRow : Type := mkMonthly {
  m_date : Date;
  m_age_0_5 : Z;
  m_age_5_17 : Z;
  m_age_18_greater : Z;
  m_total : Z;
  m_month : Z
}.

Record EntityPoint : Type := mkPoint {
  e_entity : string;
  e_date : Date;
  e_total : Z
}.

Definition monthly_agg (d : Date) (g : list Row) : MonthlyRow :=
  mkMonthly d
    (nansum (map age_0_5 g))
    (nansum (map age_5_17 g))
    (nansum (map age_18_greater g))
    (sumZ (map total_enrolments g))
    (month d).

Definition state_monthly (rows : list Row) : list MonthlyRow :=
  groupby_agg date monthly_agg rows.

Definition entity_agg (k : string * Date) (g : list Row) : EntityPoint :=
  mkPoint (fst k) (snd k) (sumZ (map total_enrolments g)).

Definition entity_monthly (entity : Row -> string) (rows : list Row) : list EntityPoint :=
  groupby_agg (fun r => (entity r, date r)) entity_agg rows.

Record Data : Type := mkData {
  df : list Row;
  monthly : list MonthlyRow;
  district_monthly : list EntityPoint;
  pincode_monthly : list EntityPoint
}.

Definition aggregate (rows : list Row) : Data :=
  mkData rows (state_monthly rows) (entity_monthly district rows)
    (entity_monthly pincode rows).

(** The four tables [load_and_prepare] returns. The state filter goes
    through the [.str] accessor, which raises on a column that holds no
    text: [load_and_prepare_checked], below, is the call with that
    failure, and this function is what it returns otherwise. *)
Definition load_and_prepare (raw : list RawRow) (state_filter : string) : Data :=
  aggregate (clean raw state_filter).

(** ** Floating-point values

    [Fin q] is a finite value, known exactly; the model has no rounding
    and no negative zero. *)

Inductive fval : Type :=
| Fin (q : Q)
| PInf
| NInf
| NaN.

Definition Qltb (a b : Q) : bool := negb (Qle_bool b a).

Definition fopp (x : fval) : fval :=
  match x with
  | Fin q => Fin (- q)
  | PInf => NInf
  | NInf => PInf
  | NaN => NaN
  end.

Definition fadd (x y : fval) : fval :=
  match x, y with
  | NaN, _ | _, NaN => NaN
  | Fin a, Fin b => Fin (a + b)
  | PInf, NInf | NInf, PInf => NaN
  | PInf, _ | _, PInf => PInf
  | NInf, _ | _, NInf => NInf
  end.

Definition fsub (x y : fval) : fval := fadd x (fopp y).

(** The sign of a finite value picks the infinity of a product or quotient. *)
Definition signed_inf (positive : bool) : fval := if positive then PInf else NInf.

Definition fmul (x y : fval) : fval :=
  match x, y with
  | NaN, _ | _, NaN => NaN
  | Fin a, Fin b => Fin (a * b)
  | Fin a, PInf | PInf, Fin a =>
      if Qeq_bool a 0 then NaN else signed_inf (Qltb 0 a)
  | Fin a, NInf | NInf, Fin a =>
      if Qeq_bool a 0 then NaN else signed_inf (Qltb a 0)
  | PInf, PInf | NInf, NInf => PInf
  | PInf, NInf | NInf, PInf => NInf
  end.

Definition fdiv (x y : fval) : fval :=
  match x, y with
  | NaN, _ | _, NaN => NaN
  | Fin a, Fin b =>
      if Qeq_bool b 0
      then (if Qeq_bool a 0 then NaN else signed_inf (Qltb 0 a))
      else Fin (a / b)
  | Fin _, PInf | Fin _, NInf => Fin 0
  | PInf, Fin b => signed_inf (Qle_bool 0 b)
  | NInf, Fin b => signed_inf (Qltb b 0)
  | _, _ => NaN
  end.

(** [x < y]; a comparison with NaN is false. *)
Definition flt (x y : fval) : bool :=
  match x, y with
  | NaN, _ | _, NaN => false
  | Fin a, Fin b => Qltb a b
  | Fin _, PInf => true
  | Fin _, NInf => false
  | PInf, _ => false
  | NInf, NInf => false
  | NInf, _ => true
  end.

Definition isnan (x : fval) : bool :=
  match x with NaN => true | _ => false end.

Definition isinf (x : fval) : bool :=
  match x with PInf | NInf => true | _ => false end.

(** Truth value of a number in an [if]: only zero is false. *)
Definition truthy (x : fval) : bool :=
  match x with
  | Fin q => negb (Qeq_bool q 0)
  | _ => true
  end.

Definition ofZ (n : Z) : fval := Fin (inject_Z n).

(** [.replace([np.inf, -np.inf], np.nan)] *)
Definition replace_inf (x : fval) : fval := if isinf x then NaN else x.

(** [.fillna(v)] on one value *)
Definition fillna (v : fval) (x : fval) : fval := if isnan x then v else x.

(** [Series.mean()] of floats, [skipna=True]. *)
Definition fmean (xs : list fval) : fval :=
  let ys := filter (fun x => negb (isnan x)) xs in
  match ys with
  | [] => NaN
  | _ => fdiv (fold_left fadd ys (Fin 0)) (ofZ (Z.of_nat (length ys)))
  end.

(** Mean of integer counts; NaN for no count. *)
Definition meanZ (xs : list Z) : fval :=
  match xs with
  | [] => NaN
  | _ => Fin (inject_Z (sumZ xs) / inject_Z (Z.of_nat (length xs)))
  end.

Definition maxZ (xs : list Z) : fval :=
  match xs with
  | [] => NaN
  | x :: t => ofZ (fold_left Z.max t x)
  end.

(** Sample variance ([ddof=1]); the standard deviation is its square root.
    A column of standard deviations is kept as the column of these
    variances: [Some v] stands for the deviation [sqrt v], [None] for NaN. *)
Definition sum_sq_dev (xs : list Z) : Q :=
  let n := inject_Z (Z.of_nat (length xs)) in
  let mu := (inject_Z (sumZ xs) / n)%Q in
  fold_right (fun x acc => (inject_Z x - mu) * (inject_Z x - mu) + acc)%Q 0%Q xs.

Definition varZ (xs : list Z) : option Q :=
  if (length xs <? 2)%nat then None
  else Some (sum_sq_dev xs / inject_Z (Z.of_nat (length xs) - 1))%Q.

(** ** Sorting (stable insertion sort) *)

Section Sort.
Context {A : Type} (leb : A -> A -> bool).

Fixpoint insert_sorted (x : A) (l : list A) : list A :=
  match l with
  | [] => [x]
  | h :: t => if leb x h then x :: l else h :: insert_sorted x t
  end.

Definition sort_by (l : list A) : list A := fold_right insert_sorted [] l.
End Sort.

(** Median of a non-empty list of rationals, as the pair of the two middle
    values of the sorted list (the same value twice for an odd length). *)
Definition middle_pair (vs : list Q) : option (Q * Q) :=
  let s := sort_by Qle_bool vs in
  let n := length s in
  match n with
  | O => None
  | _ => if Nat.even n
         then Some (nth (n / 2 - 1) s 0%Q, nth (n / 2) s 0%Q)
         else Some (nth (n / 2) s 0%Q, nth (n / 2) s 0%Q)
  end.

Definition medianQ (vs : list Q) : fval :=
  match middle_pair vs with
  | Some (a, b) => Fin ((a + b) / 2)
  | None => NaN
  end.

(** [sqrt v > 1.5 * (sqrt a + sqrt b) / 2] for variances [v], [a], [b],
    decided on the squares: with [t = 16/9 v - a - b] it is
    [0 < t] and [4 a b < t^2]. *)
Definition root_gt_threshold (v : Q) (m : Q * Q) : bool :=
  let t := (v * (16 # 9) - fst m - snd m)%Q in
  Qltb 0 t && Qltb (4 * fst m * snd m) (t * t).

(** ** Rolling windows

    [s.rolling(window, min_periods=minp).stat()]: at each position the
    statistic of the last [window] observations up to and including it,
    NaN when fewer than [minp] are there. *)

Definition lastn {A} (n : nat) (l : list A) : list A := skipn (length l - n) l.

Definition rolling_at {B} (nan : B) (window minp : nat) (stat : list Z -> B)
    (hist : list Z) : B :=
  let win := lastn window hist in
  if (minp <=? length win)%nat then stat win else nan.

Definition rolling {B} (nan : B) (window minp : nat) (stat : list Z -> B)
    (s : list Z) : list B :=
  map (fun i => rolling_at nan window minp stat (firstn (S i) s)) (seq 0 (length s)).

(** ** Indicator engine *)

(** *** [_seasonality_index] *)

Definition month_mean (m : Z) (g : list MonthlyRow) : Z * fval :=
  (m, meanZ (map m_total g)).

Definition _seasonality_index (monthly : list MonthlyRow) : list (Z * fval) :=
  let overall_avg :=
    match monthly with
    | [] => ofZ 0
    | _ => meanZ (map m_total monthly)
    end in
  let by_month := groupby_agg m_month month_mean monthly in
  if truthy overall_avg
  then map (fun r => (fst r, fdiv (snd r) overall_avg)) by_month
  else by_month.

(** *** [_district_saturation_flags] *)

(** [sort_values(['district', 'date'])] *)
Definition point_key (p : EntityPoint) : string * Date := (e_entity p, e_date p).

Definition point_leb (a b : EntityPoint) : bool :=
  negb (kltb (point_key b) (point_key a)).

(** Each row with its position inside its group. *)
Fixpoint rank_in_group (before rows : list EntityPoint) : list (EntityPoint * nat) :=
  match rows with
  | [] => []
  | r :: t =>
      (r, length (group_rows e_entity (e_entity r) before))
        :: rank_in_group (r :: before) t
  end.

(** [dm.groupby('district')['total'].transform(f)]: the value of [f] on
    the series of the row's group, at the row's position in that group. *)
Definition transform_at {B} (nan : B) (f : list Z -> list B)
    (dm : list EntityPoint) (rj : EntityPoint * nat) : B :=
  nth (snd rj) (f (map e_total (group_rows e_entity (e_entity (fst rj)) dm))) nan.

Definition transform {B} (nan : B) (f : list Z -> list B)
    (dm : list EntityPoint) : list B :=
  map (transform_at nan f dm) (rank_in_group [] dm).

Record DmRow : Type := mkDm {
  dm_district : string;
  dm_date : Date;
  dm_total : Z;
  rolling12_max : fval;
  rolling3_avg : fval;
  saturation_index : fval;
  rolling12_avg : fval;
  std12 : option Q
}.

Definition window_row (dm : list EntityPoint) (rj : EntityPoint * nat) : DmRow :=
  let r12max := transform_at NaN (rolling NaN 12 3 maxZ) dm rj in
  let r3avg := transform_at NaN (rolling NaN 3 3 meanZ) dm rj in
  mkDm (e_entity (fst rj)) (e_date (fst rj)) (e_total (fst rj))
    r12max r3avg (fdiv r3avg r12max)
    (transform_at NaN (rolling NaN 12 6 meanZ) dm rj)
    (transform_at None (rolling None 12 6 varZ) dm rj).

Definition with_windows (dm : list EntityPoint) : list DmRow :=
  map (window_row dm) (rank_in_group [] dm).

(** [groupby(key).tail(1)]: the last row of each group, in row order. *)
Fixpoint tail1 {A} (same : A -> A -> bool) (rows : list A) : list A :=
  match rows with
  | [] => []
  | r :: t => if existsb (same r) t then tail1 same t else r :: tail1 same t
  end.

Fixpoint somes {A} (xs : list (option A)) : list A :=
  match xs with
  | [] => []
  | Some x :: t => x :: somes t
  | None :: t => somes t
  end.

(** [last['std12'] > 1.5 * state_vol_threshold], false when either side
    is NaN. *)
Definition std_above (s : option Q) (median_std : option (Q * Q)) : bool :=
  match s, median_std with
  | Some v, Some m => root_gt_threshold v m
  | _, _ => false
  end.

Record FlagRow : Type := mkFlag {
  f_district : string;
  f_saturation_index : fval;
  low_momentum : bool;
  volatile : bool;
  saturation_risk : bool
}.

(** [sort_values('saturation_index')]: ascending, NaN last, ties in row
    order. *)
Definition fval_leb_nan_last (x y : fval) : bool :=
  match x, y with
  | _, NaN => true
  | NaN, _ => false
  | _, _ => negb (flt y x)
  end.

Definition same_district (a b : DmRow) : bool :=
  keqb (dm_district a) (dm_district b).

(** The three flags of one snapshot row; a comparison with NaN being
    false, [.fillna(False)] changes nothing. *)
Definition flag_row (state_vol_threshold : option (Q * Q)) (r : DmRow) : FlagRow :=
  mkFlag (dm_district r) (saturation_index r)
    (flt (rolling3_avg r) (fmul (Fin (1 # 2)) (rolling12_avg r)))
    (std_above (std12 r) state_vol_threshold)
    (flt (saturation_index r) (Fin (6 # 10))).

Definition _district_saturation_flags (district_monthly : list EntityPoint)
    : list FlagRow :=
  let dm := with_windows (sort_by point_leb district_monthly) in
  let last := tail1 same_district dm in
  let state_vol_threshold := middle_pair (somes (map std12 dm)) in
  let flags := map (flag_row state_vol_threshold) last in
  sort_by (fun a b => fval_leb_nan_last (f_saturation_index a) (f_saturation_index b))
    flags.

(** *** [_child_momentum] *)

Record ChildRow : Type := mkChild {
  child_total : Z;
  child_share : fval
}.

Definition _child_momentum (monthly : list MonthlyRow) : list ChildRow :=
  map (fun m =>
         let ct := m_age_0_5 m + m_age_5_17 m in
         mkChild ct (replace_inf (fdiv (ofZ ct) (ofZ (m_total m)))))
      monthly.

(** ** Insight / recommendation synthesizer *)

(** *** Exceptions *)

Inductive exn : Type := IndexError | ValueError | OverflowError | AttributeError.

Inductive result (A : Type) : Type :=
| Ok (a : A)
| Raise (e : exn).
Arguments Ok {A} a.
Arguments Raise {A} e.

Definition bind {A B} (m : result A) (k : A -> result B) : result B :=
  match m with
  | Ok a => k a
  | Raise e => Raise e
  end.

Notation "x <- m ;; k" := (bind m (fun x => k))
  (at level 61, m at next level, right associativity).

(** *** The loader's failure

    [df['state'].str] needs a text column. [read_csv] reads a state column
    as text when one of its cells holds a text (and when the file has no
    row at all); a column of blank cells only is read as numbers, and the
    accessor raises [AttributeError]. *)
Definition state_column_is_text (raw : list RawRow) : bool :=
  match raw with
  | [] => true
  | _ => existsb (fun r => match raw_state r with Some _ => true | None => false end) raw
  end.

Definition load_and_prepare_checked (raw : list RawRow) (state_filter : string)
    : result Data :=
  if state_column_is_text raw
  then Ok (load_and_prepare raw state_filter)
  else Raise AttributeError.

Fixpoint mapM {A B} (f : A -> result B) (xs : list A) : result (list B) :=
  match xs with
  | [] => Ok []
  | x :: t => y <- f x ;; ys <- mapM f t ;; Ok (y :: ys)
  end.

(** [s.iloc[i]], a negative [i] counting from the end. *)
Definition iloc {A} (l : list A) (i : Z) : result A :=
  let n := Z.of_nat (length l) in
  let j := if i <? 0 then n + i else i in
  if (0 <=? j) && (j <? n)
  then match nth_error l (Z.to_nat j) with
       | Some x => Ok x
       | None => Raise IndexError
       end
  else Raise IndexError.

(** [int(x)]: truncation toward zero. *)
Definition int_of (x : fval) : result Z :=
  match x with
  | Fin q => Ok (Z.quot (Qnum q) (Z.pos (Qden q)))
  | NaN => Raise ValueError
  | PInf | NInf => Raise OverflowError
  end.

(** *** Formatted text

    A text is kept as its pieces: literal text, a float under the format
    [.1%] and an integer under [str]. *)

Inductive piece : Type :=
| Lit (s : string)
| Pct1 (v : fval)
| Int (n : Z).

Definition text : Type := list piece.

Fixpoint join (sep : text) (xs : list text) : text :=
  match xs with
  | [] => []
  | [x] => x
  | x :: t => x ++ sep ++ join sep t
  end.

Record Insight : Type := mkInsight {
  what : string;
  findings : text;
  why : string
}.

(** *** Series helpers *)

Definition head {A} (n : nat) (l : list A) : list A := firstn n l.

Definition tail {A} (n : nat) (l : list A) : list A := lastn n l.

Fixpoint pct_change_from (prev : Z) (xs : list Z) : list fval :=
  match xs with
  | [] => []
  | x :: t => fsub (fdiv (ofZ x) (ofZ prev)) (Fin 1) :: pct_change_from x t
  end.

Definition pct_change (xs : list Z) : list fval :=
  match xs with
  | [] => []
  | x :: t => NaN :: pct_change_from x t
  end.

Definition medianZ (xs : list Z) : fval := medianQ (map inject_Z xs).

(** [groupby('district')['total'].sum().sort_values(ascending=False)] *)
Definition district_sum (d : string) (g : list EntityPoint) : string * Z :=
  (d, sumZ (map e_total g)).

Definition dist_totals_of (points : list EntityPoint) : list (string * Z) :=
  sort_by (fun a b => snd b <=? snd a) (groupby_agg e_entity district_sum points).

(** [seasonal.sort_values('seasonal_index', ascending=False).head(2)['month']] *)
Definition fval_geb_nan_last (x y : fval) : bool :=
  match x, y with
  | _, NaN => true
  | NaN, _ => false
  | _, _ => negb (flt x y)
  end.

Definition top_months_of (seasonal : list (Z * fval)) : list Z :=
  map fst (head 2 (sort_by (fun a b => fval_geb_nan_last (snd a) (snd b)) seasonal)).

Definition count_true {A} (f : A -> bool) (l : list A) : Z :=
  Z.of_nat (length (filter f l)).

(** *** Dates: [monthly.index.max() - pd.DateOffset(months=11)] *)

Definition is_leap (y : Z) : bool :=
  (y mod 4 =? 0) && (negb (y mod 100 =? 0) || (y mod 400 =? 0)).

Definition days_in_month (y m : Z) : Z :=
  if m =? 2 then (if is_leap y then 29 else 28)
  else if (m =? 4) || (m =? 6) || (m =? 9) || (m =? 11) then 30
  else 31.

Definition sub_months (d : Date) (n : Z) : Date :=
  let t := year d * 12 + (month d - 1) - n in
  let y := t / 12 in
  let m := t mod 12 + 1 in
  mkDate y m (Z.min (day d) (days_in_month y m)).

Definition max_date (ds : list Date) : option Date :=
  match ds with
  | [] => None
  | d :: t => Some (fold_left (fun a b => if kltb a b then b else a) t d)
  end.

Definition last_12_cutoff (monthly : list MonthlyRow) : option Date :=
  match max_date (map m_date monthly) with
  | Some d => Some (sub_months d 11)
  | None => None
  end.

Definition recent_points (monthly : list MonthlyRow) (district_monthly : list EntityPoint)
    : list EntityPoint :=
  match last_12_cutoff monthly with
  | None => district_monthly
  | Some c => filter (fun p => negb (kltb (e_date p) c)) district_monthly
  end.

(** [calendar.month_name]: thirteen entries, the first one empty. *)
Definition month_names : list string :=
  [""; "January"; "February"; "March"; "April"; "May"; "June"; "July";
   "August"; "September"; "October"; "November"; "December"]%string.

Definition month_name (m : Z) : result string := iloc month_names m.

(** *** [generate_insights]

    The literal texts of the source are kept byte for byte (UTF-8). *)

Local Open Scope string_scope.

(** [f"{d} ({int(v)})"] for a district and its total. [int] is the identity
    on the integer totals of this model and cannot fail on them; the
    infinite total of a file with an infinite numeral, on which it raises
    [OverflowError], is outside the model. *)
Definition fmt_district_total (dv : string * Z) : text :=
  [Lit (fst dv); Lit " ("; Int (snd dv); Lit ")"].

(** The [else] branches of [generate_insights]: what an insight says when
    its series is empty. *)
Definition insufficient_total_trend : Insight :=
  mkInsight "Monthly state-level Aadhaar enrolments over time"
    [Lit "Insufficient data to compute trends."]
    "Trend monitoring guides operational planning.".

Definition insufficient_age_stacked : Insight :=
  mkInsight "Stacked area of age-group enrolments"
    [Lit "No totals available to compute shares."]
    "Age mix guides segment-specific policy actions.".

Definition insufficient_pincode_box : Insight :=
  mkInsight "Monthly distribution of pincode-level enrolments"
    [Lit "No pincode-level observations available."]
    "Local variability informs micro-targeting.".

Definition insufficient_seasonality_index : Insight :=
  mkInsight "Month-of-year seasonal index of enrolments"
    [Lit "Insufficient months to estimate seasonality."]
    "Seasonality informs timing for campaigns.".

Definition insufficient_child_momentum : Insight :=
  mkInsight "Share of child enrolments in total over time"
    [Lit "Insufficient data for child share."]
    "Child enrolment is a UIDAI priority segment.".

Definition insight_total_trend (monthly : list MonthlyRow) : result Insight :=
  let totals := map m_total monthly in
  if (0 <? length monthly)%nat then
    last <- iloc totals (-1) ;;
    first <- iloc totals 0 ;;
    let total_change := fdiv (ofZ (last - first)) (ofZ (Z.max first 1)) in
    let recent_growth := fmean (tail 3 (pct_change totals)) in
    Ok (mkInsight "Monthly state-level Aadhaar enrolments over time"
          [Lit "Overall change: "; Pct1 total_change;
           Lit "; recent avg MoM growth: "; Pct1 recent_growth; Lit "."]
          "Tracks momentum and helps plan outreach or capacity scaling.")
  else Ok insufficient_total_trend.

Definition insight_age_stacked (monthly : list MonthlyRow) : result Insight :=
  let s_0_5 := sumZ (map m_age_0_5 monthly) in
  let s_5_17 := sumZ (map m_age_5_17 monthly) in
  let s_18 := sumZ (map m_age_18_greater monthly) in
  let total_sum := if (0 <? length monthly)%nat then sumZ (map m_total monthly) else 0%Z in
  if negb (total_sum =? 0)%Z then
    let share v := fillna (Fin 0) (fdiv (ofZ v) (ofZ total_sum)) in
    Ok (mkInsight "Stacked area of age-group enrolments"
          [Lit "Shares — 0–5: "; Pct1 (share s_0_5); Lit ", 5–17: "; Pct1 (share s_5_17);
           Lit ", 18+: "; Pct1 (share s_18); Lit "."]
          "Helps target initiatives for children, students, and adults.")
  else Ok insufficient_age_stacked.

Definition insight_district_disparity (district_monthly : list EntityPoint)
    : result Insight :=
  let dist_totals := dist_totals_of district_monthly in
  let top_d := head 3 dist_totals in
  let bottom_d := tail 3 dist_totals in
  Ok (mkInsight "Top and bottom district enrolments (12 months)"
        ([Lit "Top: "] ++ join [Lit ", "] (map fmt_district_total top_d)
         ++ [Lit "; Bottom: "] ++ join [Lit ", "] (map fmt_district_total bottom_d)
         ++ [Lit "."])%list
        "Highlights areas for targeted support and resource allocation.").

Definition date_median (d : Date) (g : list EntityPoint) : fval :=
  medianZ (map e_total g).

Definition insight_pincode_box (pincode_monthly : list EntityPoint) : result Insight :=
  if (0 <? length pincode_monthly)%nat then
    let dispersion := fmean (groupby_agg e_date date_median pincode_monthly) in
    n <- int_of dispersion ;;
    Ok (mkInsight "Monthly distribution of pincode-level enrolments"
          [Lit "Central tendency (median across months): ~"; Int n;
           Lit " enrolments per pincode."]
          "Assesses local capacity needs and variability.")
  else Ok insufficient_pincode_box.

Definition insight_seasonality_index (monthly : list MonthlyRow) : result Insight :=
  let seasonal := _seasonality_index monthly in
  if (0 <? length seasonal)%nat then
    let top_months := top_months_of seasonal in
    Ok (mkInsight "Month-of-year seasonal index of enrolments"
          ([Lit "Peak months: "] ++ join [Lit ", "] (map (fun m => [Int m]) top_months)
           ++ [Lit "; plan staffing and campaigns accordingly."])%list
          "Seasonal planning improves throughput and user experience.")
  else Ok insufficient_seasonality_index.

Definition insight_risk_summary (district_monthly : list EntityPoint) : result Insight :=
  let flags := _district_saturation_flags district_monthly in
  Ok (mkInsight "Count of districts flagged for saturation, low momentum, and volatility"
        [Lit "Saturation risk: "; Int (count_true saturation_risk flags);
         Lit "; Low momentum: "; Int (count_true low_momentum flags);
         Lit "; Volatile: "; Int (count_true volatile flags); Lit "."]
        "Directs attention to underperforming or unstable areas.").

Definition insight_child_momentum (monthly : list MonthlyRow) : result Insight :=
  let child := _child_momentum monthly in
  if (0 <? length child)%nat then
    last_share <- iloc (tail 1 (map child_share child)) 0 ;;
    Ok (mkInsight "Share of child enrolments in total over time"
          [Lit "Latest child share: "; Pct1 last_share;
           Lit ". Monitor changes post school cycles."]
          "Guides child-focused outreach and school partnerships.")
  else Ok insufficient_child_momentum.

(** The dictionary of insights, in insertion order. *)
Definition generate_insights (data : Data) : result (list (string * Insight)) :=
  i1 <- insight_total_trend (monthly data) ;;
  i2 <- insight_age_stacked (monthly data) ;;
  i3 <- insight_district_disparity (district_monthly data) ;;
  i4 <- insight_pincode_box (pincode_monthly data) ;;
  i5 <- insight_seasonality_index (monthly data) ;;
  i6 <- insight_risk_summary (district_monthly data) ;;
  i7 <- insight_child_momentum (monthly data) ;;
  Ok [("total_trend", i1); ("age_stacked", i2); ("district_disparity", i3);
      ("pincode_box", i4); ("seasonality_index", i5); ("risk_summary", i6);
      ("child_momentum", i7)].

(** *** [generate_recommendations] *)

Definition rec_child (monthly : list MonthlyRow) : result text :=
  let child := _child_momentum monthly in
  if (0 <? length child)%nat then
    last_share <- iloc (tail 1 (map child_share child)) 0 ;;
    Ok [Lit "Prioritize biometric update infrastructure for children (";
        Pct1 last_share; Lit " share)."]
  else
    Ok [Lit "Prioritize child enrolment infrastructure; monitor child share trends."].

Definition rec_mobile_units (monthly : list MonthlyRow)
    (district_monthly : list EntityPoint) : result text :=
  let recent := recent_points monthly district_monthly in
  let dist_totals := dist_totals_of recent in
  let bottom3 := map fst (tail 3 dist_totals) in
  match bottom3 with
  | [] => Ok [Lit "Deploy mobile units to low-performing areas identified by recent trends."]
  | _ => Ok ([Lit "Deploy mobile enrolment units in low-performing districts ("]
             ++ join [Lit ", "] (map (fun d => [Lit d]) bottom3) ++ [Lit ")."])%list
  end.

Definition rec_seasonal (monthly : list MonthlyRow) : result text :=
  let seasonal := _seasonality_index monthly in
  if (0 <? length seasonal)%nat then
    month_names <- mapM month_name (top_months_of seasonal) ;;
    Ok ([Lit "Align outreach campaigns with seasonal peaks ("]
        ++ join [Lit " & "] (map (fun n => [Lit n]) month_names) ++ [Lit ")."])%list
  else
    Ok [Lit "Align campaigns with observed seasonal peaks once sufficient data accrues."].

Definition rec_volatile (flags : list FlagRow) : result text :=
  let volatile_names := head 3 (map f_district (filter volatile flags)) in
  if (0 <? length volatile_names)%nat then
    Ok ([Lit "Monitor volatile districts for operational instability (e.g., "]
        ++ join [Lit ", "] (map (fun d => [Lit d]) volatile_names) ++ [Lit ")."])%list
  else
    Ok [Lit "Monitor districts exhibiting high variability for operational stability."].

Definition rec_saturation (flags : list FlagRow) : result text :=
  let sat_count := count_true saturation_risk flags in
  Ok [Lit "Shift focus from enrolment to service quality in saturated districts (approx. ";
      Int sat_count; Lit " flagged)."].

Definition generate_recommendations (data : Data) : result (list text) :=
  let flags := _district_saturation_flags (district_monthly data) in
  r1 <- rec_child (monthly data) ;;
  r2 <- rec_mobile_units (monthly data) (district_monthly data) ;;
  r3 <- rec_seasonal (monthly data) ;;
  r4 <- rec_volatile flags ;;
  r5 <- rec_saturation flags ;;
  Ok [r1; r2; r3; r4; r5].

Local Close Scope string_scope.

(** * Observations, invariants and sample inputs

    What the properties below are stated with: readings of the tables,
    the invariants of the cleaned rows and of the state series, and the
    concrete inputs the examples use. *)

(** ** Readings *)

(** Equality of float values, finite ones as rationals. *)
Definition feq (x y : fval) : Prop :=
  match x, y with
  | Fin a, Fin b => a == b
  | PInf, PInf | NInf, NInf | NaN, NaN => True
  | _, _ => False
  end.


Definition unit_or_nan (x : fval) : Prop :=
  x = NaN \/ exists q, x = Fin q /\ (0 <= q <= 1)%Q.





(** A row that has its three key fields. *)
Definition has_keys (r : RawRow) : bool :=
  match raw_date r, raw_district r, raw_pincode r with
  | Some _, Some _, Some _ => true
  | _, _, _ => false
  end.


Definition available (c : cell) : Z :=
  match c with
  | Number n => n
  | _ => 0
  end.


(** The size of the numbers of a file: the absolute values of its numeric
    age cells, added up. Below 2^53 every sum the pipeline takes of them is
    exact, whether it is an int64 or a float sum. *)
Definition cell_abs (c : cell) : Z :=
  match c with
  | Number n => Z.abs n
  | _ => 0
  end.

Definition row_magnitude (r : RawRow) : Z :=
  cell_abs (raw_age_0_5 r) + cell_abs (raw_age_5_17 r) + cell_abs (raw_age_18_greater r).

Definition age_magnitude (raw : list RawRow) : Z :=
  fold_right (fun r acc => row_magnitude r + acc) 0 raw.




Definition starts_with_space (s : string) : bool :=
  match s with
  | String c _ => isspace c
  | EmptyString => false
  end.

Fixpoint ends_with_space (s : string) : bool :=
  match s with
  | EmptyString => false
  | String c EmptyString => isspace c
  | String _ t => ends_with_space t
  end.

(** The latest row of every district, with its window statistics ([last]
    in [_district_saturation_flags]). *)
Definition last_snapshot (district_monthly : list EntityPoint) : list DmRow :=
  tail1 same_district (with_windows (sort_by point_leb district_monthly)).

(** Number of monthly points of a district. *)
Definition points_of (d : string) (district_monthly : list EntityPoint) : nat :=
  length (group_rows e_entity d district_monthly).

Definition same_entity (a b : EntityPoint * nat) : bool :=
  keqb (e_entity (fst a)) (e_entity (fst b)).

Definition months_of_year : list Z := [1; 2; 3; 4; 5; 6; 7; 8; 9; 10; 11; 12].

(** The insufficient-data insights the code has, and what the risk
    summary and the recommendations say of an empty flag table. *)
Definition insufficient_insights : list Insight :=
  [insufficient_total_trend; insufficient_age_stacked; insufficient_pincode_box;
   insufficient_seasonality_index; insufficient_child_momentum].

Definition risk_summary_zero : Insight :=
  mkInsight "Count of districts flagged for saturation, low momentum, and volatility"
    [Lit "Saturation risk: "; Int 0; Lit "; Low momentum: "; Int 0;
     Lit "; Volatile: "; Int 0; Lit "."]
    "Directs attention to underperforming or unstable areas.".

Definition fallback_recommendations : list text :=
  [[Lit "Prioritize child enrolment infrastructure; monitor child share trends."];
   [Lit "Deploy mobile units to low-performing areas identified by recent trends."];
   [Lit "Align campaigns with observed seasonal peaks once sufficient data accrues."];
   [Lit "Monitor districts exhibiting high variability for operational stability."];
   [Lit "Shift focus from enrolment to service quality in saturated districts (approx. ";
    Int 0; Lit " flagged)."]].

(** ** Invariants *)

Definition nonneg_cell (c : cell) : bool :=
  match c with
  | Number n => 0 <=? n
  | _ => true
  end.

(** No age cell of the row is a negative number. *)
Definition nonneg_ages (r : RawRow) : bool :=
  nonneg_cell (raw_age_0_5 r) && nonneg_cell (raw_age_5_17 r)
  && nonneg_cell (raw_age_18_greater r).

Definition nonneg_opt (o : option Z) : Prop :=
  match o with Some v => 0 <= v | None => True end.

(** What the cleaning guarantees about a row. *)
Definition clean_invariant (r : Row) : Prop :=
  nonneg_opt (age_0_5 r) /\ nonneg_opt (age_5_17 r) /\ nonneg_opt (age_18_greater r)
  /\ total_enrolments r = nansum [age_0_5 r; age_5_17 r; age_18_greater r].

(** What the aggregator guarantees about an entry of the state series. *)
Definition monthly_invariant (m : MonthlyRow) : Prop :=
  0 <= m_age_0_5 m /\ 0 <= m_age_5_17 m /\ 0 <= m_age_18_greater m
  /\ m_total m = m_age_0_5 m + m_age_5_17 m + m_age_18_greater m.

(** ** Sample inputs *)




Definition maharashtra_row : RawRow :=
  mkRaw (Some (mkDate 2025 3 1)) (Some "Maharashtra"%string) (Some "Pune"%string)
    (Some "411001"%string) (Number 4) (Number 5) (Number 6).

Definition goa_row : RawRow :=
  mkRaw (Some (mkDate 2025 3 1)) (Some "Goa"%string) (Some "North Goa"%string)
    (Some "403001"%string) (Number 4) (Number 5) (Number 6).


(** A Maharashtra row with no age at all. *)
Definition no_age_row : RawRow :=
  mkRaw (Some (mkDate 2025 3 1)) (Some "Maharashtra"%string) (Some " Pune "%string)
    (Some "411001"%string) Blank (NonNumeric "x") Blank.

(** A Maharashtra row whose ages add up to 2^63. *)
Definition overflow_row : RawRow :=
  mkRaw (Some (mkDate 2025 3 1)) (Some "Maharashtra"%string) (Some "Pune"%string)
    (Some "411001"%string) (Number (2 ^ 62)) (Number 0) (Number (2 ^ 62)).

(** A Maharashtra row whose ages sum to zero. *)
Definition zero_total_row : RawRow :=
  mkRaw (Some (mkDate 2025 4 1)) (Some "Maharashtra"%string) (Some "Pune"%string)
    (Some "411001"%string) (NonNumeric "n/a") Blank (Number 0).

Definition three_months_of_pune : list EntityPoint :=
  [mkPoint "Pune" (mkDate 2025 1 1) 100; mkPoint "Pune" (mkDate 2025 2 1) 100;
   mkPoint "Pune" (mkDate 2025 3 1) 100].

Definition four_months_of_latur : list EntityPoint :=
  [mkPoint "Latur" (mkDate 2025 1 1) 900; mkPoint "Latur" (mkDate 2025 2 1) 1;
   mkPoint "Latur" (mkDate 2025 3 1) 1; mkPoint "Latur" (mkDate 2025 4 1) 1].

Definition five_months_of_satara : list EntityPoint :=
  [mkPoint "Satara" (mkDate 2025 1 1) 10; mkPoint "Satara" (mkDate 2025 2 1) 900;
   mkPoint "Satara" (mkDate 2025 3 1) 3; mkPoint "Satara" (mkDate 2025 4 1) 700;
   mkPoint "Satara" (mkDate 2025 5 1) 1].

Definition month_row (y m t : Z) : Row :=
  mkRow (mkDate y m 1) "Pune" "411001" (Some t) None None t.

(** Thirteen months: every month of 2024 with total 10, and January 2025
    with total 30. *)
Definition thirteen_months : list MonthlyRow :=
  state_monthly
    (map (fun m => month_row 2024 m 10) months_of_year ++ [month_row 2025 1 30]).


(** * Further readings of the pipeline *)

(** A text without leading or trailing whitespace. *)
Definition trimmed (s : string) : Prop :=
  starts_with_space s = false /\ ends_with_space s = false.



(** ** [build_figures]: the series each chart is drawn from

    The charts themselves (traces, titles, styling) are presentation; what
    is kept here is the data handed to them. *)

Record Figures : Type := mkFigures {
  fig_total_trend : list (Date * Z);
  fig_age_stacked : list (Date * (Z * Z * Z));
  fig_top15 : list (string * Z);
  fig_bottom15 : list (string * Z);
  fig_pincode_box : list (Date * Z);
  fig_seasonality_index : list (Z * fval);
  fig_risk_summary : list (string * Z);
  fig_child_momentum : list (Date * fval)
}.

Definition build_figures (data : Data) : Figures :=
  let recent := recent_points (monthly data) (district_monthly data) in
  let dist_totals := dist_totals_of recent in
  let flags := _district_saturation_flags (district_monthly data) in
  mkFigures
    (map (fun m => (m_date m, m_total m)) (monthly data))
    (map (fun m => (m_date m, (m_age_0_5 m, m_age_5_17 m, m_age_18_greater m)))
       (monthly data))
    (head 15 dist_totals)
    (tail 15 dist_totals)
    (map (fun p => (e_date p, e_total p)) (pincode_monthly data))
    (_seasonality_index (monthly data))
    [("Saturation Risk"%string, count_true saturation_risk flags);
     ("Low Momentum"%string, count_true low_momentum flags);
     ("Volatile"%string, count_true volatile flags)]
    (combine (map m_date (monthly data))
       (map child_share (_child_momentum (monthly data)))).

(** ** Further sample inputs *)

Definition two_months_of_akola : list EntityPoint :=
  [mkPoint "Akola" (mkDate 2025 1 1) 500; mkPoint "Akola" (mkDate 2025 2 1) 1].


(** * Properties *)

(** ** Group-by: keys and groups *)

Section GroupByFacts.
Context {K : Type} `{OrdKey K}.

Lemma cmp_Gt_Lt (a b : K) : cmp a b = Gt -> cmp b a = Lt.
Proof. intros E. now rewrite (cmp_antisym a b), E. Qed.

Lemma cmp_Lt_Gt (a b : K) : cmp a b = Lt -> cmp b a = Gt.
Proof. intros E. now rewrite (cmp_antisym a b), E. Qed.

Lemma keqb_eq (a b : K) : keqb a b = true <-> a = b.
Proof.
  unfold keqb. rewrite <- cmp_eq. destruct (cmp a b); split; congruence.
Qed.

Lemma keqb_refl (a : K) : keqb a a = true.
Proof. now apply keqb_eq. Qed.

Lemma keqb_neq (a b : K) : keqb a b = false <-> a <> b.
Proof.
  rewrite <- keqb_eq. destruct (keqb a b); split; congruence.
Qed.


Lemma in_insert_key (x k : K) (ks : list K) :
  In x (insert_key k ks) <-> x = k \/ In x ks.
Proof.
  induction ks as [|h t IH]; simpl.
  - intuition.
  - destruct (cmp k h) eqn:E; simpl.
    + apply cmp_eq in E. subst. intuition.
    + intuition.
    + rewrite IH. intuition.
Qed.

Lemma ascending_insert_key (k : K) (ks : list K) :
  ascending ks -> ascending (insert_key k ks).
Proof.
  unfold ascending. induction ks as [|h t IH]; simpl; intros S.
  - repeat constructor.
  - inversion S as [|? ? St Hh]; subst.
    destruct (cmp k h) eqn:E; auto.
    + constructor; auto. constructor; auto.
      eapply Forall_impl; [|exact Hh]. intros y Hy. eapply cmp_trans; eassumption.
    + constructor; auto. apply Forall_forall. intros y Hy.
      apply in_insert_key in Hy. destruct Hy as [->|Hy].
      * now apply cmp_Gt_Lt.
      * rewrite Forall_forall in Hh. auto.
Qed.

Lemma ascending_NoDup (ks : list K) : ascending ks -> NoDup ks.
Proof.
  unfold ascending. induction 1 as [|h t St IH Hh]; constructor; auto.
  intros Hin. rewrite Forall_forall in Hh. specialize (Hh _ Hin).
  now rewrite cmp_refl in Hh.
Qed.

Context {A : Type} (key : A -> K).


Lemma group_keys_ascending (rows : list A) : ascending (group_keys key rows).
Proof.
  induction rows as [|r t IH]; simpl.
  - constructor.
  - now apply ascending_insert_key.
Qed.

Lemma in_group_keys (k : K) (rows : list A) :
  In k (group_keys key rows) <-> exists r, In r rows /\ key r = k.
Proof.
  induction rows as [|r t IH]; simpl.
  - split; [intros [] | intros (? & [] & _)].
  - rewrite in_insert_key, IH. split.
    + intros [->|(x & Hx & Ex)]; eauto.
    + intros (x & [->|Hx] & Ex); eauto.
Qed.

Lemma group_rows_perm (k : K) (rows rows' : list A) :
  Permutation rows rows' -> Permutation (group_rows key k rows) (group_rows key k rows').
Proof.
  unfold group_rows. induction 1; simpl.
  - constructor.
  - destruct (keqb (key x) k); auto.
  - destruct (keqb (key x) k), (keqb (key y) k); auto. constructor.
  - etransitivity; eassumption.
Qed.



Context {B : Type} (agg : K -> list A -> B).

Lemma groupby_agg_map (rows : list A) :
  groupby_agg key agg rows
  = map (fun k => agg k (group_rows key k rows)) (group_keys key rows).
Proof. unfold groupby_agg, groupby. now rewrite map_map. Qed.

Lemma in_groupby_agg (b : B) (rows : list A) :
  In b (groupby_agg key agg rows) ->
  exists k, In k (group_keys key rows) /\ b = agg k (group_rows key k rows).
Proof.
  rewrite groupby_agg_map, in_map_iff. intros (k & <- & Hk). eauto.
Qed.




End GroupByFacts.

(** ** Sums *)


Lemma sumZ_perm (l l' : list Z) : Permutation l l' -> sumZ l = sumZ l'.
Proof. induction 1; simpl; lia. Qed.


Lemma nansum_nonneg (l : list (option Z)) :
  Forall (fun o => match o with Some v => 0 <= v | None => True end) l -> 0 <= nansum l.
Proof.
  induction 1 as [|o l Ho Hl IH]; simpl; [lia|]. destruct o; lia.
Qed.

(** ** Aggregator: row order *)














(** ** Loader: which rows are kept *)


(** *** Row totals within the range of the number types *)

Lemma wrap64_small (z : Z) : - 2 ^ 63 <= z < 2 ^ 63 -> wrap64 z = z.
Proof. intros H. unfold wrap64. rewrite Z.mod_small; lia. Qed.

Lemma cell_abs_nonneg (c : cell) : 0 <= cell_abs c.
Proof. destruct c; simpl; lia. Qed.

Lemma row_magnitude_nonneg (r : RawRow) : 0 <= row_magnitude r.
Proof.
  unfold row_magnitude.
  pose proof (cell_abs_nonneg (raw_age_0_5 r)).
  pose proof (cell_abs_nonneg (raw_age_5_17 r)).
  pose proof (cell_abs_nonneg (raw_age_18_greater r)). lia.
Qed.

Lemma age_magnitude_nonneg (raw : list RawRow) : 0 <= age_magnitude raw.
Proof.
  induction raw as [|r raw IH]; simpl; [lia|].
  pose proof (row_magnitude_nonneg r). lia.
Qed.

Lemma age_magnitude_rows (raw : list RawRow) (bound : Z) :
  age_magnitude raw < bound -> Forall (fun r => row_magnitude r < bound) raw.
Proof.
  induction raw as [|r raw IH]; simpl; intros H; constructor.
  - pose proof (age_magnitude_nonneg raw). lia.
  - apply IH. pose proof (row_magnitude_nonneg r). lia.
Qed.

Lemma available_bounded (c : cell) : Z.abs (available c) <= cell_abs c.
Proof. destruct c; simpl; lia. Qed.

Lemma nansum_available (r : RawRow) :
  nansum [to_numeric (raw_age_0_5 r); to_numeric (raw_age_5_17 r);
          to_numeric (raw_age_18_greater r)]
  = available (raw_age_0_5 r) + available (raw_age_5_17 r)
    + available (raw_age_18_greater r).
Proof.
  destruct (raw_age_0_5 r), (raw_age_5_17 r), (raw_age_18_greater r); simpl; lia.
Qed.

Lemma round53_small (z : Z) : Z.abs z < 2 ^ 53 -> round53 z = z.
Proof. intros H. unfold round53. destruct (Z.ltb_spec (Z.abs z) (2 ^ 53)); [reflexivity | lia]. Qed.

Lemma column_value_small (int64 : bool) (c : cell) :
  cell_abs c < 2 ^ 53 -> column_value int64 (to_numeric c) = to_numeric c.
Proof.
  destruct c as [n| |]; simpl; intros H; try reflexivity.
  destruct int64; [reflexivity|]. now rewrite round53_small.
Qed.

Lemma float_sum_available (r : RawRow) :
  row_magnitude r < 2 ^ 53 ->
  float_sum [to_numeric (raw_age_0_5 r); to_numeric (raw_age_5_17 r);
             to_numeric (raw_age_18_greater r)]
  = available (raw_age_0_5 r) + available (raw_age_5_17 r)
    + available (raw_age_18_greater r).
Proof.
  unfold row_magnitude. intros H.
  pose proof (available_bounded (raw_age_0_5 r)) as B1.
  pose proof (available_bounded (raw_age_5_17 r)) as B2.
  pose proof (available_bounded (raw_age_18_greater r)) as B3.
  pose proof (cell_abs_nonneg (raw_age_0_5 r)) as N1.
  pose proof (cell_abs_nonneg (raw_age_5_17 r)) as N2.
  pose proof (cell_abs_nonneg (raw_age_18_greater r)) as N3.
  assert (E : forall c, match to_numeric c with Some v => v | None => 0 end = available c)
    by (intros c; now destruct c).
  unfold float_sum. cbn [fold_left]. rewrite !E.
  rewrite (round53_small (available (raw_age_0_5 r))) by lia.
  rewrite (round53_small (0 + available (raw_age_0_5 r))) by lia.
  rewrite (round53_small (available (raw_age_5_17 r))) by lia.
  rewrite (round53_small (0 + available (raw_age_0_5 r) + available (raw_age_5_17 r)))
    by lia.
  rewrite (round53_small (available (raw_age_18_greater r))) by lia.
  rewrite round53_small by lia. lia.
Qed.

(** Below 2^53 the columns hold the numbers of the cells and the row total
    is their sum, whichever number types the columns have. *)
Lemma clean_row_small (types : AgeTypes) (r : RawRow) :
  row_magnitude r < 2 ^ 53 ->
  clean_row types r
  = match raw_date r, raw_district r, raw_pincode r with
    | Some d, Some di, Some p =>
        Some (mkRow d (strip di) (strip p)
                (to_numeric (raw_age_0_5 r)) (to_numeric (raw_age_5_17 r))
                (to_numeric (raw_age_18_greater r))
                (available (raw_age_0_5 r) + available (raw_age_5_17 r)
                 + available (raw_age_18_greater r)))
    | _, _, _ => None
    end.
Proof.
  intros H. unfold clean_row.
  pose proof (cell_abs_nonneg (raw_age_0_5 r)) as N1.
  pose proof (cell_abs_nonneg (raw_age_5_17 r)) as N2.
  pose proof (cell_abs_nonneg (raw_age_18_greater r)) as N3.
  unfold row_magnitude in H.
  rewrite !column_value_small by lia.
  rewrite (float_sum_available r) by (unfold row_magnitude; lia).
  rewrite nansum_available, wrap64_small.
  - now destruct (int_0_5 types && int_5_17 types && int_18_greater types).
  - pose proof (available_bounded (raw_age_0_5 r)).
    pose proof (available_bounded (raw_age_5_17 r)).
    pose proof (available_bounded (raw_age_18_greater r)). lia.
Qed.
















(** The scenario of a row with all ages missing: it is kept with total 0. *)
Example all_ages_missing_row_kept :
  df (load_and_prepare
        [mkRaw (Some (mkDate 2025 5 1)) (Some "Maharashtra"%string)
           (Some " Pune "%string) (Some "411001"%string) Blank (NonNumeric "x") Blank]
        "Maharashtra")
  = [mkRow (mkDate 2025 5 1) "Pune" "411001" None None None 0].
Proof. reflexivity. Qed.

(** A file whose rows have no state at all cannot be filtered. *)
Example blank_state_column_raises :
  load_and_prepare_checked
    [mkRaw (Some (mkDate 2025 5 1)) None (Some "Pune"%string) (Some "411001"%string)
       (Number 1) (Number 2) (Number 3)]
    "Maharashtra"
  = Raise AttributeError.
Proof. reflexivity. Qed.

(** ** Loader: the state filter *)

Lemma state_matches_lower (f1 f2 : string) (r : RawRow) :
  lower f1 = lower f2 -> state_matches f1 r = state_matches f2 r.
Proof. intros E. unfold state_matches. now rewrite E. Qed.

(** C9, as stated, fails: the filter values ["Maharashtra"] and
    [" Maharashtra"] differ only in leading whitespace, yet the first
    selects the row and the second selects nothing. *)
Lemma state_filter_value_not_trimmed :
  lower (strip " Maharashtra") = lower (strip "Maharashtra")
  /\ filter (state_matches " Maharashtra") [maharashtra_row]
     <> filter (state_matches "Maharashtra") [maharashtra_row].
Proof. split; [reflexivity | discriminate]. Qed.

(** *** A filter value with surrounding whitespace selects nothing *)

Lemma isspace_lower_char (c : ascii) : isspace (lower_char c) = isspace c.
Proof. destruct c as [[] [] [] [] [] [] [] []]; reflexivity. Qed.

Lemma starts_with_space_lower (s : string) :
  starts_with_space (lower s) = starts_with_space s.
Proof. destruct s; simpl; [reflexivity | apply isspace_lower_char]. Qed.

Lemma ends_with_space_lower (s : string) :
  ends_with_space (lower s) = ends_with_space s.
Proof.
  induction s as [|c t IH]; simpl; [reflexivity|].
  destruct t as [|c' t']; simpl in *; [apply isspace_lower_char | exact IH].
Qed.

Lemma lstrip_no_leading_space (s : string) : starts_with_space (lstrip s) = false.
Proof.
  induction s as [|c t IH]; simpl; [reflexivity|].
  destruct (isspace c) eqn:E; [exact IH | simpl; exact E].
Qed.

Lemma rstrip_keeps_head (s : string) :
  starts_with_space s = false -> starts_with_space (rstrip s) = false.
Proof.
  destruct s as [|c t]; simpl; [reflexivity|]. intros E.
  destruct (rstrip t); simpl; [|exact E]. now rewrite E.
Qed.

Lemma rstrip_no_trailing_space (s : string) : ends_with_space (rstrip s) = false.
Proof.
  induction s as [|c t IH]; simpl; [reflexivity|].
  destruct (rstrip t) as [|c' t'] eqn:E.
  - destruct (isspace c) eqn:Ec; simpl; [reflexivity | exact Ec].
  - exact IH.
Qed.

Lemma strip_no_surrounding_space (s : string) :
  starts_with_space (strip s) = false /\ ends_with_space (strip s) = false.
Proof.
  unfold strip. split.
  - apply rstrip_keeps_head, lstrip_no_leading_space.
  - apply rstrip_no_trailing_space.
Qed.

(** The filter value is not trimmed: one that begins or ends with a
    whitespace character matches no state, since the state field is
    trimmed before the comparison. *)
Lemma untrimmed_filter_selects_nothing (raw : list RawRow) (state_filter : string) :
  starts_with_space state_filter || ends_with_space state_filter = true ->
  filter (state_matches state_filter) raw = [].
Proof.
  intros Hsp. induction raw as [|r t IH]; simpl; [reflexivity|].
  assert (E : state_matches state_filter r = false).
  { unfold state_matches. destruct (raw_state r) as [s|]; [|reflexivity].
    apply not_true_iff_false. intros Heq. apply String.eqb_eq in Heq.
    destruct (strip_no_surrounding_space s) as [H1 H2].
    rewrite <- starts_with_space_lower in H1. rewrite <- ends_with_space_lower in H2.
    rewrite Heq, starts_with_space_lower in H1.
    rewrite Heq, ends_with_space_lower in H2.
    rewrite H1, H2 in Hsp. discriminate Hsp. }
  now rewrite E.
Qed.

(** C9, amended. The filter compares the lower-cased filter value with the
    trimmed, lower-cased state field. Two filter values that differ only in
    letter case select the same rows of every dataset (so they give the same
    load), and two rows whose state fields differ only in letter case or in
    leading or trailing whitespace are selected alike. The filter value
    itself is not trimmed: one that begins or ends with whitespace selects
    no row. *)
Theorem state_filter_case_insensitive (raw : list RawRow) (f1 f2 : string) :
  lower f1 = lower f2 ->
  filter (state_matches f1) raw = filter (state_matches f2) raw
  /\ load_and_prepare raw f1 = load_and_prepare raw f2
  /\ (forall r r' s s',
        raw_state r = Some s -> raw_state r' = Some s' ->
        lower (strip s) = lower (strip s') ->
        state_matches f1 r = state_matches f1 r')
  /\ (starts_with_space f1 || ends_with_space f1 = true ->
      filter (state_matches f1) raw = []).
Proof.
  intros E.
  assert (F : filter (state_matches f1) raw = filter (state_matches f2) raw).
  { apply filter_ext. intros r. now apply state_matches_lower. }
  split; [exact F|]. split; [|split].
  - unfold load_and_prepare, clean. now rewrite F.
  - intros r r' s s' Hs Hs' El. unfold state_matches. now rewrite Hs, Hs', El.
  - apply untrimmed_filter_selects_nothing.
Qed.

Lemma state_filter_case_insensitive_witness :
  lower "MAHARASHTRA" = lower "maharashtra"
  /\ filter (state_matches "MAHARASHTRA") [maharashtra_row]
     = filter (state_matches "maharashtra") [maharashtra_row]
  /\ load_and_prepare [maharashtra_row] "MAHARASHTRA"
     = load_and_prepare [maharashtra_row] "maharashtra".
Proof.
  split; [reflexivity|].
  pose proof (state_filter_case_insensitive [maharashtra_row] "MAHARASHTRA"
                "maharashtra" eq_refl) as (H1 & H2 & _).
  split; [exact H1 | exact H2].
Defined.

(** ** Sorting and snapshots *)

Lemma insert_sorted_perm {A} (leb : A -> A -> bool) (x : A) (l : list A) :
  Permutation (insert_sorted leb x l) (x :: l).
Proof.
  induction l as [|h t IH]; simpl; [reflexivity|].
  destruct (leb x h); [reflexivity|].
  rewrite IH. constructor.
Qed.

Lemma sort_by_perm {A} (leb : A -> A -> bool) (l : list A) :
  Permutation (sort_by leb l) l.
Proof.
  induction l as [|h t IH]; simpl; [constructor|].
  rewrite insert_sorted_perm. now constructor.
Qed.

Lemma tail1_incl {A} (same : A -> A -> bool) (l : list A) (x : A) :
  In x (tail1 same l) -> In x l.
Proof.
  induction l as [|h t IH]; simpl; [auto|].
  destruct (existsb (same h) t); simpl; intuition.
Qed.

(** ** Rolling windows *)

Lemma length_lastn {A} (n : nat) (l : list A) : length (lastn n l) = Nat.min n (length l).
Proof. unfold lastn. rewrite length_skipn. lia. Qed.

Lemma rolling_at_short {B} (nan : B) (w minp : nat) (stat : list Z -> B) (hist : list Z) :
  (length hist < minp)%nat -> rolling_at nan w minp stat hist = nan.
Proof.
  intros L. unfold rolling_at.
  destruct (Nat.leb_spec minp (length (lastn w hist))) as [Hle|]; [|reflexivity].
  rewrite length_lastn in Hle. lia.
Qed.

Lemma nth_rolling {B} (nan : B) (w minp : nat) (stat : list Z -> B) (s : list Z) (j : nat) :
  (j < length s)%nat ->
  nth j (rolling nan w minp stat s) nan = rolling_at nan w minp stat (firstn (S j) s).
Proof.
  intros L. unfold rolling.
  rewrite (nth_indep _ nan (rolling_at nan w minp stat (firstn (S 0) s)))
    by now rewrite length_map, length_seq.
  rewrite (map_nth (fun i => rolling_at nan w minp stat (firstn (S i) s))).
  now rewrite seq_nth.
Qed.

(** A series shorter than [min_periods] has no defined rolling value. *)
Lemma rolling_short {B} (nan : B) (w minp : nat) (stat : list Z -> B) (s : list Z) (j : nat) :
  (length s < minp)%nat -> nth j (rolling nan w minp stat s) nan = nan.
Proof.
  intros L. destruct (Nat.lt_ge_cases j (length s)) as [Hj|Hj].
  - rewrite nth_rolling by assumption. apply rolling_at_short.
    rewrite length_firstn. lia.
  - apply nth_overflow. unfold rolling. now rewrite length_map, length_seq.
Qed.

(** ** The volatility comparison *)

Lemma Qltb_lt (a b : Q) : Qltb a b = true <-> (a < b)%Q.
Proof.
  unfold Qltb. rewrite negb_true_iff. split.
  - intros E. apply Qnot_le_lt. intros Hle. apply Qle_bool_iff in Hle. congruence.
  - intros Hlt. apply not_true_iff_false. intros E. apply Qle_bool_iff in E.
    apply (Qlt_not_le _ _ Hlt E).
Qed.

(** [root_gt_threshold] decides the comparison of the roots: for
    non-negative [s], [p], [q] it holds of their squares exactly when
    [s > 1.5 * (p + q) / 2]. *)
Lemma root_gt_threshold_spec (s p q : Q) :
  (0 <= s)%Q -> (0 <= p)%Q -> (0 <= q)%Q ->
  root_gt_threshold (s * s) ((p * p)%Q, (q * q)%Q) = true
  <-> ((3 # 2) * ((p + q) / 2) < s)%Q.
Proof.
  intros Hs Hp Hq. unfold root_gt_threshold. simpl fst. simpl snd. cbv zeta.
  rewrite andb_true_iff, !Qltb_lt.
  set (t := (s * s * (16 # 9) - p * p - q * q)%Q).
  assert (Et : (t == s * s * (16 # 9) - p * p - q * q)%Q) by reflexivity.
  clearbody t.
  assert (Hpq : (0 <= p * q)%Q) by (apply Qmult_le_0_compat; assumption).
  assert (Eh : ((3 # 2) * ((p + q) / 2) == (3 # 4) * (p + q))%Q) by field.
  rewrite Eh. clear Eh.
  split.
  - intros [Ht Hsq].
    assert (H2 : (2 * p * q < t)%Q).
    { apply Qnot_le_lt. intros Hle.
      assert (Hd : (0 <= 2 * p * q - t)%Q) by lra.
      pose proof (Qmult_le_0_compat _ _ Hd (Qlt_le_weak _ _ Ht)) as M1.
      assert (Hn : (0 <= 2 * p * q)%Q) by lra.
      pose proof (Qmult_le_0_compat _ _ Hd Hn) as M2.
      lra. }
    apply Qnot_le_lt. intros Hle.
    assert (Hd : (0 <= (3 # 4) * (p + q) - s)%Q) by lra.
    assert (Hn : (0 <= (3 # 4) * (p + q) + s)%Q) by lra.
    pose proof (Qmult_le_0_compat _ _ Hd Hn) as M.
    lra.
  - intros H.
    assert (Hd : (0 <= s - (3 # 4) * (p + q))%Q) by lra.
    assert (Hn : (0 <= (3 # 4) * (p + q))%Q) by lra.
    pose proof (Qmult_le_0_compat _ _ Hd Hn) as M1.
    assert (Hs' : (0 < s)%Q) by lra.
    assert (Hd' : (0 < s - (3 # 4) * (p + q))%Q) by lra.
    pose proof (Qmult_lt_0_compat _ _ Hd' Hs') as M2.
    assert (H2 : (2 * p * q < t)%Q) by lra.
    split; [lra|].
    assert (Hd2 : (0 < t - 2 * p * q)%Q) by lra.
    assert (Hn2 : (0 <= 2 * p * q)%Q) by lra.
    assert (Ht : (0 < t)%Q) by lra.
    pose proof (Qmult_lt_0_compat _ _ Hd2 Ht) as M3.
    pose proof (Qmult_le_0_compat _ _ (Qlt_le_weak _ _ Hd2) Hn2) as M4.
    lra.
Qed.

(** ** District flags: the snapshot *)

(** The window columns of the table are the group-wise transforms of the
    source. *)
Lemma with_windows_columns (dm : list EntityPoint) :
  map rolling12_max (with_windows dm) = transform NaN (rolling NaN 12 3 maxZ) dm
  /\ map rolling3_avg (with_windows dm) = transform NaN (rolling NaN 3 3 meanZ) dm
  /\ map rolling12_avg (with_windows dm) = transform NaN (rolling NaN 12 6 meanZ) dm
  /\ map std12 (with_windows dm) = transform None (rolling None 12 6 varZ) dm
  /\ map saturation_index (with_windows dm)
     = map (fun r => fdiv (rolling3_avg r) (rolling12_max r)) (with_windows dm).
Proof.
  unfold with_windows, transform. rewrite !map_map. repeat split.
Qed.

Lemma in_flags (f : FlagRow) (dm : list EntityPoint) :
  In f (_district_saturation_flags dm) ->
  exists thr r, In r (last_snapshot dm) /\ f = flag_row thr r.
Proof.
  unfold _district_saturation_flags. intros Hin.
  apply (Permutation_in _ (sort_by_perm _ _)) in Hin.
  apply in_map_iff in Hin. destruct Hin as (r & <- & Hr). eauto.
Qed.

Lemma points_of_sorted (d : string) (dm : list EntityPoint) :
  points_of d (sort_by point_leb dm) = points_of d dm.
Proof.
  unfold points_of. apply Permutation_length, group_rows_perm, sort_by_perm.
Qed.

Lemma map_fst_rank_in_group (before rows : list EntityPoint) :
  map fst (rank_in_group before rows) = rows.
Proof.
  revert before. induction rows as [|r t IH]; intros before; simpl; [reflexivity|].
  now rewrite IH.
Qed.

Lemma keqb_sym {K} `{OrdKey K} (a b : K) : keqb a b = keqb b a.
Proof.
  destruct (keqb b a) eqn:E.
  - apply keqb_eq in E. subst. apply keqb_refl.
  - apply keqb_neq in E. apply keqb_neq. congruence.
Qed.

Lemma existsb_mapped {A B} (p : B -> bool) (f : A -> B) (l : list A) :
  existsb p (map f l) = existsb (fun a => p (f a)) l.
Proof. induction l as [|h t IH]; simpl; [reflexivity|]. now rewrite IH. Qed.

Lemma tail1_map {A B} (same : B -> B -> bool) (f : A -> B) (l : list A) :
  tail1 same (map f l) = map f (tail1 (fun a b => same (f a) (f b)) l).
Proof.
  induction l as [|h t IH]; simpl; [reflexivity|].
  rewrite existsb_mapped. destruct (existsb _ t); simpl; now rewrite IH.
Qed.

Lemma no_later_row (r : EntityPoint) (c : nat) (before t : list EntityPoint) :
  existsb (same_entity (r, c)) (rank_in_group before t) = false ->
  group_rows e_entity (e_entity r) t = [].
Proof.
  revert before. induction t as [|h t IH]; intros before; simpl; [reflexivity|].
  unfold same_entity at 1. simpl. rewrite (keqb_sym (e_entity h)).
  destruct (keqb (e_entity r) (e_entity h)); simpl; [discriminate|]. apply IH.
Qed.

(** The row kept for a district is the last of its group: its position in
    the group is the group's size less one. *)
Lemma latest_rank (rows before : list EntityPoint) (p : EntityPoint) (j : nat) :
  In (p, j) (tail1 same_entity (rank_in_group before rows)) ->
  S j = (points_of (e_entity p) before + points_of (e_entity p) rows)%nat.
Proof.
  unfold points_of. revert before.
  induction rows as [|r t IH]; intros before; simpl; [intros []|].
  destruct (existsb _ _) eqn:E.
  - intros Hin. apply IH in Hin. simpl in Hin.
    destruct (keqb (e_entity r) (e_entity p)); simpl in *; lia.
  - intros [[= -> <-]|Hin].
    + apply no_later_row in E. rewrite keqb_refl. simpl.
      rewrite E. simpl. lia.
    + apply IH in Hin. simpl in Hin.
      destruct (keqb (e_entity r) (e_entity p)); simpl in *; lia.
Qed.

(** A row of the snapshot, read back as a point of the sorted table and
    its position in its group. *)
Lemma in_last_snapshot (r : DmRow) (dm : list EntityPoint) :
  In r (last_snapshot dm) ->
  exists p j,
    r = window_row (sort_by point_leb dm) (p, j)
    /\ In p dm
    /\ S j = points_of (e_entity p) dm.
Proof.
  unfold last_snapshot, with_windows. rewrite tail1_map.
  intros Hin. apply in_map_iff in Hin. destruct Hin as ([p j] & <- & Hin).
  exists p, j. split; [reflexivity|]. split.
  - apply tail1_incl in Hin.
    apply (in_map fst) in Hin. rewrite map_fst_rank_in_group in Hin.
    now apply (Permutation_in _ (sort_by_perm _ _)) in Hin.
  - apply latest_rank in Hin. rewrite points_of_sorted in Hin.
    unfold points_of in Hin at 1. simpl in Hin. exact Hin.
Qed.

Lemma series_length (d : string) (dm : list EntityPoint) :
  length (map e_total (group_rows e_entity d (sort_by point_leb dm))) = points_of d dm.
Proof. rewrite length_map. apply points_of_sorted. Qed.

Lemma tail1_covers {A K} `{OrdKey K} (key : A -> K) (l : list A) (x : A) :
  In x l ->
  exists y, In y (tail1 (fun a b => keqb (key a) (key b)) l) /\ key y = key x.
Proof.
  revert x. induction l as [|h t IH]; intros x; simpl; [intros []|].
  destruct (existsb _ t) eqn:E.
  - intros [<-|Hx]; [|auto].
    apply existsb_exists in E. destruct E as (z & Hz & Ez).
    apply keqb_eq in Ez. destruct (IH _ Hz) as (y & Hy & Ey).
    exists y. split; [assumption | congruence].
  - intros [<-|Hx].
    + exists h. split; [now left | reflexivity].
    + destruct (IH _ Hx) as (y & Hy & Ey). exists y. split; [now right | assumption].
Qed.

(** Every district of the table has its row in the snapshot and in the
    flag table. *)
Lemma snapshot_covers (dm : list EntityPoint) (p : EntityPoint) :
  In p dm -> exists r, In r (last_snapshot dm) /\ dm_district r = e_entity p.
Proof.
  intros Hp. unfold last_snapshot, same_district.
  assert (Hw : exists w, In w (with_windows (sort_by point_leb dm))
                         /\ dm_district w = e_entity p).
  { apply (Permutation_in _ (Permutation_sym (sort_by_perm point_leb dm))) in Hp.
    unfold with_windows.
    rewrite <- (map_fst_rank_in_group [] (sort_by point_leb dm)) in Hp.
    apply in_map_iff in Hp. destruct Hp as (rj & <- & Hrj).
    exists (window_row (sort_by point_leb dm) rj). split; [|reflexivity].
    now apply in_map. }
  destruct Hw as (w & Hw & Ew).
  destruct (tail1_covers dm_district _ _ Hw) as (y & Hy & Ey).
  exists y. split; [assumption | congruence].
Qed.

Lemma flags_cover (dm : list EntityPoint) (p : EntityPoint) :
  In p dm -> exists f, In f (_district_saturation_flags dm) /\ f_district f = e_entity p.
Proof.
  intros Hp. destruct (snapshot_covers _ _ Hp) as (r & Hr & Er).
  unfold _district_saturation_flags.
  set (thr := middle_pair _).
  exists (flag_row thr r). split; [|exact Er].
  apply (Permutation_in _ (Permutation_sym (sort_by_perm _ _))).
  now apply in_map.
Qed.

(** With fewer than six points the 12-window mean and deviation, which
    need six, are undefined at every row of the district. *)
Lemma short_history_windows (dm : list EntityPoint) (p : EntityPoint) (j : nat) :
  (points_of (e_entity p) dm < 6)%nat ->
  rolling12_avg (window_row (sort_by point_leb dm) (p, j)) = NaN
  /\ std12 (window_row (sort_by point_leb dm) (p, j)) = None.
Proof.
  intros L. unfold window_row, transform_at. simpl.
  split; apply rolling_short; now rewrite series_length.
Qed.

(** C7. A district with fewer than six monthly points is never flagged
    volatile: its [std12] is undefined at its snapshot row, and the
    comparison of an undefined value with 1.5 times the median of all
    [std12] values is false. *)
Theorem short_history_never_volatile (dm : list EntityPoint) (d : string) :
  (points_of d dm < 6)%nat ->
  (forall r, In r (last_snapshot dm) -> dm_district r = d -> std12 r = None)
  /\ (forall f, In f (_district_saturation_flags dm) -> f_district f = d ->
                volatile f = false).
Proof.
  intros L.
  assert (S1 : forall r, In r (last_snapshot dm) -> dm_district r = d -> std12 r = None).
  { intros r Hr Ed. apply in_last_snapshot in Hr.
    destruct Hr as (p & j & -> & _ & _). simpl in Ed. subst d.
    now apply short_history_windows. }
  split; [exact S1|].
  intros f Hf Ed. apply in_flags in Hf. destruct Hf as (thr & r & Hr & ->).
  simpl in *. now rewrite (S1 r Hr Ed).
Qed.

Lemma short_history_never_volatile_witness :
  (points_of "Satara" five_months_of_satara < 6)%nat
  /\ (forall r, In r (last_snapshot five_months_of_satara) ->
                dm_district r = "Satara"%string -> std12 r = None)
  /\ (forall f, In f (_district_saturation_flags five_months_of_satara) ->
                f_district f = "Satara"%string -> volatile f = false).
Proof.
  assert (L : (points_of "Satara" five_months_of_satara < 6)%nat)
    by (vm_compute; lia).
  split; [exact L | exact (short_history_never_volatile _ _ L)].
Defined.

(** C10. A district with exactly 3, 4 or 5 monthly points has its row in
    the flag table and always gets [low_momentum = false]: at its snapshot
    row [rolling3_avg] is defined (three points suffice) but [rolling12_avg]
    needs six points and is undefined, so the comparison is false. *)
Theorem three_to_five_points_no_low_momentum (dm : list EntityPoint) (d : string) :
  (3 <= points_of d dm <= 5)%nat ->
  (forall r, In r (last_snapshot dm) -> dm_district r = d ->
             (exists q, rolling3_avg r = Fin q) /\ rolling12_avg r = NaN)
  /\ (forall f, In f (_district_saturation_flags dm) -> f_district f = d ->
                low_momentum f = false)
  /\ (exists f, In f (_district_saturation_flags dm) /\ f_district f = d).
Proof.
  intros [L3 L5].
  assert (S1 : forall r, In r (last_snapshot dm) -> dm_district r = d ->
                         (exists q, rolling3_avg r = Fin q) /\ rolling12_avg r = NaN).
  { intros r Hr Ed. apply in_last_snapshot in Hr.
    destruct Hr as (p & j & -> & _ & Hj). simpl in Ed. subst d. split.
    - unfold window_row, transform_at. simpl.
      set (s := map e_total _).
      assert (Ls : length s = S j) by (subst s; now rewrite series_length).
      rewrite nth_rolling by lia. rewrite <- Ls, firstn_all.
      unfold rolling_at.
      assert (Lw : length (lastn 3 s) = 3%nat) by (rewrite length_lastn; lia).
      rewrite Lw. simpl. unfold meanZ.
      destruct (lastn 3 s); [discriminate | eauto].
    - apply short_history_windows. lia. }
  split; [exact S1|]. split.
  - intros f Hf Ed. apply in_flags in Hf. destruct Hf as (thr & r & Hr & ->).
    simpl in *. destruct (S1 r Hr Ed) as [_ ->].
    now destruct (rolling3_avg r).
  - unfold points_of in L3.
    destruct (group_rows e_entity d dm) as [|p g] eqn:G; [simpl in L3; lia|].
    assert (Hp : In p (group_rows e_entity d dm)) by (rewrite G; now left).
    unfold group_rows in Hp. apply filter_In in Hp. destruct Hp as [Hp Ek].
    apply keqb_eq in Ek. subst d. now apply flags_cover.
Qed.

Lemma three_to_five_points_no_low_momentum_witness :
  (3 <= points_of "Latur" four_months_of_latur <= 5)%nat
  /\ (forall r, In r (last_snapshot four_months_of_latur) ->
                dm_district r = "Latur"%string ->
                (exists q, rolling3_avg r = Fin q) /\ rolling12_avg r = NaN)
  /\ (forall f, In f (_district_saturation_flags four_months_of_latur) ->
                f_district f = "Latur"%string -> low_momentum f = false)
  /\ (exists f, In f (_district_saturation_flags four_months_of_latur)
                /\ f_district f = "Latur"%string).
Proof.
  assert (L : (3 <= points_of "Latur" four_months_of_latur <= 5)%nat)
    by (vm_compute; lia).
  split; [exact L | exact (three_to_five_points_no_low_momentum _ _ L)].
Defined.

(** ** District flags: three points of 100 *)

(** C2, as stated, fails: with three points of 100 the 12-window maximum
    is defined at the latest point (its [min_periods] is 3), and so is the
    saturation index. *)
Lemma three_points_rolling12_max_defined :
  ~ Forall (fun r => rolling12_max r = NaN /\ saturation_index r = NaN)
      (last_snapshot three_months_of_pune).
Proof.
  assert (E : last_snapshot three_months_of_pune
              = [mkDm "Pune" (mkDate 2025 3 1) 100 (Fin 100) (Fin (300 # 3))
                   (Fin (300 # 300)) NaN None]) by (vm_compute; reflexivity).
  rewrite E. intros F. inversion F as [|? ? [Hmax _] _]. discriminate Hmax.
Qed.

Lemma three_points_sorted (pts : list EntityPoint) (n : string) (v : Z) :
  length pts = 3%nat ->
  Forall (fun p => e_entity p = n /\ e_total p = v) pts ->
  exists d1 d2 d3,
    sort_by point_leb pts = [mkPoint n d1 v; mkPoint n d2 v; mkPoint n d3 v].
Proof.
  intros L F.
  pose proof (sort_by_perm point_leb pts) as P.
  apply (Permutation_Forall (Permutation_sym P)) in F.
  apply Permutation_length in P. rewrite L in P.
  destruct (sort_by point_leb pts) as [|[n1 d1 v1] [|[n2 d2 v2] [|[n3 d3 v3] [|]]]];
    try discriminate.
  inversion F as [|? ? [E1 V1] F1]; subst.
  inversion F1 as [|? ? [E2 V2] F2]; subst.
  inversion F2 as [|? ? [E3 V3] _]; subst.
  simpl in *. subst. eauto.
Qed.

Lemma three_points_windows (n : string) (d1 d2 d3 : Date) :
  with_windows [mkPoint n d1 100; mkPoint n d2 100; mkPoint n d3 100]
  = [mkDm n d1 100 NaN NaN NaN NaN None;
     mkDm n d2 100 NaN NaN NaN NaN None;
     mkDm n d3 100 (Fin 100) (Fin (300 # 3)) (Fin (300 # 300)) NaN None].
Proof.
  unfold with_windows, window_row, transform_at. simpl.
  rewrite !keqb_refl. reflexivity.
Qed.

(** C2, amended. For a table that holds one district with exactly three
    monthly points of total 100 each, the 12-window maximum at the latest
    point is 100 (three points meet its [min_periods]), the 3-window mean is
    100, the saturation index is 1, and the district gets
    [saturation_risk = false] (with [low_momentum] and [volatile] false as
    well). *)
Theorem three_points_of_100_saturation (pts : list EntityPoint) (n : string) :
  length pts = 3%nat ->
  Forall (fun p => e_entity p = n /\ e_total p = 100) pts ->
  exists r si,
    last_snapshot pts = [r]
    /\ dm_district r = n
    /\ rolling12_max r = Fin 100
    /\ feq (rolling3_avg r) (Fin 100)
    /\ feq (saturation_index r) (Fin 1)
    /\ feq si (Fin 1)
    /\ _district_saturation_flags pts = [mkFlag n si false false false].
Proof.
  intros L F. destruct (three_points_sorted _ _ _ L F) as (d1 & d2 & d3 & E).
  exists (mkDm n d3 100 (Fin 100) (Fin (300 # 3)) (Fin (300 # 300)) NaN None),
    (Fin (300 # 300)).
  assert (S : last_snapshot pts
              = [mkDm n d3 100 (Fin 100) (Fin (300 # 3)) (Fin (300 # 300)) NaN None]).
  { unfold last_snapshot. rewrite E, three_points_windows.
    unfold same_district. simpl. now rewrite !keqb_refl. }
  split; [exact S|].
  repeat (split; [reflexivity|]).
  unfold _district_saturation_flags.
  fold (last_snapshot pts). rewrite S, E, three_points_windows. reflexivity.
Qed.

Lemma three_points_of_100_saturation_witness :
  length three_months_of_pune = 3%nat
  /\ Forall (fun p => e_entity p = "Pune"%string /\ e_total p = 100) three_months_of_pune
  /\ exists r si,
       last_snapshot three_months_of_pune = [r]
       /\ dm_district r = "Pune"%string
       /\ rolling12_max r = Fin 100
       /\ feq (rolling3_avg r) (Fin 100)
       /\ feq (saturation_index r) (Fin 1)
       /\ feq si (Fin 1)
       /\ _district_saturation_flags three_months_of_pune
          = [mkFlag "Pune" si false false false].
Proof.
  assert (F : Forall (fun p => e_entity p = "Pune"%string /\ e_total p = 100)
                three_months_of_pune)
    by (repeat constructor).
  split; [reflexivity|]. split; [exact F|].
  exact (three_points_of_100_saturation three_months_of_pune "Pune" eq_refl F).
Defined.

(** ** Empty or filter-exhausted dataset *)

(** C8, as stated, fails: on the empty dataset not every insight is an
    insufficient-data one. The risk summary reports its three counts (all
    zero), and the district disparity insight has no such text either. *)
Lemma empty_dataset_not_every_insight_insufficient :
  ~ (exists ins,
       generate_insights (aggregate []) = Ok ins
       /\ Forall (fun ki => In (snd ki) insufficient_insights) ins).
Proof.
  intros (ins & E & F). vm_compute in E. injection E as <-.
  rewrite Forall_forall in F.
  specialize (F ("risk_summary"%string, risk_summary_zero)).
  simpl in F.
  destruct F as [H|[H|[H|[H|[H|[]]]]]]; try discriminate H.
  do 5 right. now left.
Qed.

(** C8, amended. When no row survives the cleaning, the flag table is
    empty and its three counts are zero; the insights on the total trend,
    the age mix, the pincode distribution, the seasonality and the child
    share are their insufficient-data versions and the risk summary reports
    three zero counts; the recommendation list has its five entries in their
    fixed order, each in its fallback wording. Nothing raises. *)
Theorem empty_dataset_degrades (raw : list RawRow) (state_filter : string) :
  clean raw state_filter = [] ->
  let data := load_and_prepare raw state_filter in
  let flags := _district_saturation_flags (district_monthly data) in
  flags = []
  /\ count_true saturation_risk flags = 0
  /\ count_true low_momentum flags = 0
  /\ count_true volatile flags = 0
  /\ (exists disparity,
        generate_insights data
        = Ok [("total_trend"%string, insufficient_total_trend);
              ("age_stacked"%string, insufficient_age_stacked);
              ("district_disparity"%string, disparity);
              ("pincode_box"%string, insufficient_pincode_box);
              ("seasonality_index"%string, insufficient_seasonality_index);
              ("risk_summary"%string, risk_summary_zero);
              ("child_momentum"%string, insufficient_child_momentum)])
  /\ generate_recommendations data = Ok fallback_recommendations.
Proof.
  intros E. unfold load_and_prepare. rewrite E. simpl.
  repeat (split; [reflexivity|]). split; [|reflexivity].
  eexists. reflexivity.
Qed.

Lemma empty_dataset_degrades_witness :
  clean [goa_row] "Maharashtra" = []
  /\ _district_saturation_flags
       (district_monthly (load_and_prepare [goa_row] "Maharashtra")) = []
  /\ generate_recommendations (load_and_prepare [goa_row] "Maharashtra")
     = Ok fallback_recommendations.
Proof.
  assert (E : clean [goa_row] "Maharashtra" = []) by reflexivity.
  pose proof (empty_dataset_degrades [goa_row] "Maharashtra" E) as H.
  cbv zeta in H. destruct H as (Hf & _ & _ & _ & _ & Hr).
  split; [exact E|]. split; [exact Hf | exact Hr].
Defined.

(** ** Child share *)

Lemma nonneg_cell_numeric (c : cell) : nonneg_cell c = true -> nonneg_opt (to_numeric c).
Proof. destruct c; simpl; auto. intros E. now apply Z.leb_le. Qed.

Lemma in_dropna {A B} (f : A -> option B) (l : list A) (y : B) :
  In y (dropna f l) -> exists x, In x l /\ f x = Some y.
Proof.
  induction l as [|h t IH]; simpl; [intros []|].
  destruct (f h) eqn:E.
  - intros [<-|Hy]; [eauto|]. destruct (IH Hy) as (x & Hx & Ex). eauto.
  - intros Hy. destruct (IH Hy) as (x & Hx & Ex). eauto.
Qed.

(** Below 2^53 the row total is the sum of the ages the row keeps. *)
Lemma clean_row_total (types : AgeTypes) (r : RawRow) (row : Row) :
  row_magnitude r < 2 ^ 53 -> clean_row types r = Some row ->
  total_enrolments row = nansum [age_0_5 row; age_5_17 row; age_18_greater row].
Proof.
  intros Hm Er. rewrite (clean_row_small types r Hm) in Er.
  destruct (raw_date r), (raw_district r), (raw_pincode r); try discriminate.
  injection Er as <-. cbn [total_enrolments age_0_5 age_5_17 age_18_greater].
  symmetry. apply nansum_available.
Qed.

Lemma clean_rows_sources (raw : list RawRow) (state_filter : string) (row : Row) :
  In row (clean raw state_filter) ->
  exists types r, In r raw /\ clean_row types r = Some row.
Proof.
  unfold clean. intros Hrow. apply in_dropna in Hrow.
  destruct Hrow as (r & Hr & Er). apply filter_In in Hr. destruct Hr as [Hr _]. eauto.
Qed.

Lemma clean_rows_invariant (raw : list RawRow) (state_filter : string) :
  forallb nonneg_ages raw = true -> age_magnitude raw < 2 ^ 53 ->
  Forall clean_invariant (clean raw state_filter).
Proof.
  intros Hn Hmag. apply Forall_forall. intros row Hrow.
  destruct (clean_rows_sources _ _ _ Hrow) as (types & r & Hr & Er).
  assert (Hm : row_magnitude r < 2 ^ 53).
  { pose proof (age_magnitude_rows _ _ Hmag) as F. rewrite Forall_forall in F.
    exact (F _ Hr). }
  pose proof (clean_row_total types r row Hm Er) as Ht.
  rewrite forallb_forall in Hn. specialize (Hn _ Hr).
  unfold nonneg_ages in Hn. apply andb_true_iff in Hn. destruct Hn as [Hn H3].
  apply andb_true_iff in Hn. destruct Hn as [H1 H2].
  rewrite (clean_row_small types r Hm) in Er.
  unfold clean_invariant. split; [|split; [|split; [|exact Ht]]];
    destruct (raw_date r), (raw_district r), (raw_pincode r); try discriminate;
    injection Er as <-; simpl; auto using nonneg_cell_numeric.
Qed.

Lemma nansum_map_nonneg {A} (f : A -> option Z) (g : list A) :
  Forall (fun x => nonneg_opt (f x)) g -> 0 <= nansum (map f g).
Proof.
  induction 1 as [|x g Hx Hg IH]; simpl; [lia|].
  unfold nonneg_opt in Hx. destruct (f x); lia.
Qed.

Lemma group_total_split (g : list Row) :
  Forall clean_invariant g ->
  sumZ (map total_enrolments g)
  = nansum (map age_0_5 g) + nansum (map age_5_17 g) + nansum (map age_18_greater g).
Proof.
  induction 1 as [|r g Hr Hg IH]; simpl; [reflexivity|].
  destruct Hr as (_ & _ & _ & ->). rewrite IH. simpl.
  destruct (age_0_5 r), (age_5_17 r), (age_18_greater r); lia.
Qed.

Lemma state_monthly_invariant (rows : list Row) :
  Forall clean_invariant rows -> Forall monthly_invariant (state_monthly rows).
Proof.
  intros Hc. apply Forall_forall. intros m Hm.
  unfold state_monthly in Hm. apply in_groupby_agg in Hm.
  destruct Hm as (k & _ & ->).
  assert (Hg : Forall clean_invariant (group_rows date k rows)).
  { apply Forall_forall. intros r Hr. unfold group_rows in Hr.
    apply filter_In in Hr. rewrite Forall_forall in Hc. now apply Hc. }
  unfold monthly_invariant, monthly_agg. simpl.
  repeat split.
  - apply nansum_map_nonneg. eapply Forall_impl; [|exact Hg]. now intros r (? & _).
  - apply nansum_map_nonneg. eapply Forall_impl; [|exact Hg]. now intros r (_ & ? & _).
  - apply nansum_map_nonneg. eapply Forall_impl; [|exact Hg]. now intros r (_ & _ & ? & _).
  - now apply group_total_split.
Qed.

Lemma Qeq_bool_inject_Z_0 (z : Z) : Qeq_bool (inject_Z z) 0 = (z =? 0).
Proof.
  destruct (Z.eqb_spec z 0) as [->|Hz]; [reflexivity|].
  apply not_true_iff_false. intros E. apply Qeq_bool_iff in E.
  unfold Qeq in E. simpl in E. lia.
Qed.

Lemma child_share_bounds (m : MonthlyRow) :
  monthly_invariant m ->
  let share := replace_inf (fdiv (ofZ (m_age_0_5 m + m_age_5_17 m)) (ofZ (m_total m))) in
  (m_total m = 0 -> share = NaN) /\ unit_or_nan share.
Proof.
  intros (H1 & H2 & H3 & Ht). simpl. unfold ofZ, fdiv.
  rewrite !Qeq_bool_inject_Z_0.
  destruct (Z.eqb_spec (m_total m) 0) as [E0|Hn].
  - assert (Ec : m_age_0_5 m + m_age_5_17 m = 0) by lia.
    rewrite Ec. simpl. split; [reflexivity | now left].
  - simpl. split; [intros E; contradiction|]. right.
    eexists. split; [reflexivity|].
    assert (Hpos : (0 < inject_Z (m_total m))%Q).
    { rewrite <- (Zlt_Qlt 0). lia. }
    split.
    + apply Qle_shift_div_l; [assumption|]. rewrite Qmult_0_l.
      rewrite <- (Zle_Qle 0). lia.
    + apply Qle_shift_div_r; [assumption|]. rewrite Qmult_1_l.
      rewrite <- Zle_Qle. lia.
Qed.

Lemma Forall2_map_r {A B} (P : A -> B -> Prop) (f : A -> B) (l : list A) :
  Forall (fun x => P x (f x)) l -> Forall2 P l (map f l).
Proof. induction 1; simpl; constructor; auto. Qed.

(** C6, as stated, fails: the file has one row, with the ages 2^62, 0 and
    2^62. The state series has one entry, whose age sums are these three
    numbers, none of them negative; its total is the int64 sum -2^63, and
    its child share is -1/2. *)
Lemma child_share_negative_on_overflow :
  forallb nonneg_ages [overflow_row] = true
  /\ map (fun m => (m_age_0_5 m, m_age_5_17 m, m_age_18_greater m, m_total m))
       (monthly (load_and_prepare [overflow_row] "Maharashtra"))
     = [(2 ^ 62, 0, 2 ^ 62, - 2 ^ 63)]
  /\ exists q,
       map child_share
         (_child_momentum (monthly (load_and_prepare [overflow_row] "Maharashtra")))
       = [Fin q]
       /\ (q == - (1 # 2))%Q
       /\ ~ unit_or_nan (Fin q).
Proof.
  split; [reflexivity|]. split; [vm_compute; reflexivity|].
  eexists. split; [vm_compute; reflexivity|].
  split; [reflexivity|].
  intros [H | (q & E & H1 & _)]; [discriminate H|].
  injection E as <-. unfold Qle in H1. simpl in H1. lia.
Qed.

(** C6, amended. When no age cell of the file is negative and the age
    cells add up to less than 2^53, every entry of the state series gets a
    child share that is either undefined or a value in [0, 1]; the share of
    an entry whose total is zero is undefined (it is neither an infinity
    nor an error). *)
Theorem child_share_in_unit_interval (raw : list RawRow) (state_filter : string) :
  forallb nonneg_ages raw = true ->
  age_magnitude raw < 2 ^ 53 ->
  Forall2 (fun m c =>
             child_total c = m_age_0_5 m + m_age_5_17 m
             /\ (m_total m = 0 -> child_share c = NaN)
             /\ unit_or_nan (child_share c))
    (monthly (load_and_prepare raw state_filter))
    (_child_momentum (monthly (load_and_prepare raw state_filter))).
Proof.
  intros Hn Hmag. unfold _child_momentum. apply Forall2_map_r.
  unfold load_and_prepare, aggregate. simpl.
  pose proof (state_monthly_invariant _ (clean_rows_invariant _ state_filter Hn Hmag))
    as Hm.
  eapply Forall_impl; [|exact Hm].
  intros m Im. simpl. split; [reflexivity|].
  now apply child_share_bounds.
Qed.

Lemma child_share_in_unit_interval_witness :
  forallb nonneg_ages [maharashtra_row; zero_total_row] = true
  /\ age_magnitude [maharashtra_row; zero_total_row] < 2 ^ 53
  /\ Forall2 (fun m c =>
                child_total c = m_age_0_5 m + m_age_5_17 m
                /\ (m_total m = 0 -> child_share c = NaN)
                /\ unit_or_nan (child_share c))
       (monthly (load_and_prepare [maharashtra_row; zero_total_row] "Maharashtra"))
       (_child_momentum
          (monthly (load_and_prepare [maharashtra_row; zero_total_row] "Maharashtra"))).
Proof.
  split; [reflexivity|]. split; [reflexivity|].
  exact (child_share_in_unit_interval [maharashtra_row; zero_total_row] "Maharashtra"
           eq_refl eq_refl).
Defined.

(** ** Seasonality index *)




(** The overall mean is zero exactly when the totals sum to zero. *)
Lemma truthy_meanZ (xs : list Z) :
  xs <> [] -> truthy (meanZ xs) = negb (sumZ xs =? 0).
Proof.
  destruct xs as [|x t]; [congruence|]. intros _. unfold meanZ, truthy.
  set (s := sumZ (x :: t)). set (n := Z.of_nat (length (x :: t))).
  assert (Hn : 0 < n) by (subst n; simpl length; lia).
  f_equal. rewrite <- Qeq_bool_inject_Z_0.
  destruct (Qeq_bool (inject_Z s) 0) eqn:E.
  - apply Qeq_bool_iff in E. apply Qeq_bool_iff. rewrite E. unfold Qdiv. apply Qmult_0_l.
  - apply not_true_iff_false. intros E'. apply not_true_iff_false in E. apply E.
    apply Qeq_bool_iff in E'. apply Qeq_bool_iff.
    assert (Hq : ~ inject_Z n == 0)
      by (intros H0; unfold Qeq in H0; simpl in H0; lia).
    rewrite <- (Qmult_div_r (inject_Z s) (inject_Z n)) by exact Hq.
    rewrite E'. apply Qmult_0_r.
Qed.

Lemma seasonality_months (monthly : list MonthlyRow) :
  map fst (_seasonality_index monthly) = group_keys m_month monthly.
Proof.
  unfold _seasonality_index.
  destruct (truthy _); rewrite groupby_agg_map, ?map_map; simpl; apply map_id.
Qed.







(** *** The mean of the index values *)


Lemma sum_indicator {K} `{OrdKey K} (a : K) (c : Z) (f : K -> Z) (ks : list K) :
  NoDup ks -> In a ks ->
  sumZ (map (fun k => (if keqb a k then c else 0) + f k) ks) = c + sumZ (map f ks).
Proof.
  induction 1 as [|h t Hh Ht IH]; simpl; [intros []|].
  intros [->|Hin].
  - rewrite keqb_refl.
    assert (E : map (fun k => (if keqb a k then c else 0) + f k) t = map f t).
    { apply map_ext_in. intros k Hk. destruct (keqb a k) eqn:E; [|lia].
      apply keqb_eq in E. subst. contradiction. }
    rewrite E. lia.
  - destruct (keqb a h) eqn:E.
    + apply keqb_eq in E. subst. contradiction.
    + rewrite (IH Hin). lia.
Qed.


Lemma sumZ_const {A} (c : Z) (l : list A) :
  sumZ (map (fun _ => c) l) = Z.of_nat (length l) * c.
Proof.
  induction l as [|x t IH]; [reflexivity|].
  cbn [map length]. rewrite Nat2Z.inj_succ. unfold sumZ in *. cbn [fold_right]. lia.
Qed.

(** Summing a weight over the groups of a partition gives its sum over
    all rows. *)
Lemma sum_over_groups {A K} `{OrdKey K} (key : A -> K) (w : A -> Z)
    (ks : list K) (l : list A) :
  NoDup ks -> (forall x, In x l -> In (key x) ks) ->
  sumZ (map (fun k => sumZ (map w (group_rows key k l))) ks) = sumZ (map w l).
Proof.
  intros ND. induction l as [|x t IH]; intros Hin; simpl.
  - rewrite sumZ_const. lia.
  - rewrite <- IH by (intros y Hy; apply Hin; now right).
    rewrite <- (sum_indicator (key x) (w x)
                  (fun k => sumZ (map w (group_rows key k t))) ks ND)
      by (apply Hin; now left).
    f_equal. apply map_ext. intros k. destruct (keqb (key x) k); reflexivity.
Qed.






Lemma meanZ_nonempty (xs : list Z) :
  xs <> [] -> meanZ xs = Fin (inject_Z (sumZ xs) / inject_Z (Z.of_nat (length xs))).
Proof. destruct xs; [congruence | reflexivity]. Qed.






(** * Further properties *)

(** ** Loader and aggregator *)

Lemma clean_rows_trimmed (raw : list RawRow) (state_filter : string) :
  Forall (fun r => trimmed (district r) /\ trimmed (pincode r))
    (clean raw state_filter).
Proof.
  apply Forall_forall. intros row Hrow.
  destruct (clean_rows_sources _ _ _ Hrow) as (types & r & _ & Er).
  unfold clean_row in Er.
  destruct (raw_date r), (raw_district r), (raw_pincode r); try discriminate.
  injection Er as <-. simpl. unfold trimmed.
  split; apply strip_no_surrounding_space.
Qed.

Lemma clean_rows_total (raw : list RawRow) (state_filter : string) :
  age_magnitude raw < 2 ^ 53 ->
  Forall (fun r => total_enrolments r
                   = nansum [age_0_5 r; age_5_17 r; age_18_greater r])
    (clean raw state_filter).
Proof.
  intros Hmag. apply Forall_forall. intros row Hrow.
  destruct (clean_rows_sources _ _ _ Hrow) as (types & r & Hr & Er).
  apply (clean_row_total types r row); [|exact Er].
  pose proof (age_magnitude_rows _ _ Hmag) as F. rewrite Forall_forall in F.
  exact (F _ Hr).
Qed.

Lemma sum_of_groupby {A K B} `{OrdKey K} (key : A -> K) (agg : K -> list A -> B)
    (w : A -> Z) (v : B -> Z) (rows : list A) :
  (forall k g, v (agg k g) = sumZ (map w g)) ->
  sumZ (map v (groupby_agg key agg rows)) = sumZ (map w rows).
Proof.
  intros Hv. rewrite groupby_agg_map, map_map.
  rewrite <- (sum_over_groups key w (group_keys key rows) rows).
  - f_equal. apply map_ext. intros k. apply Hv.
  - apply ascending_NoDup, group_keys_ascending.
  - intros x Hx. apply in_group_keys. eauto.
Qed.


(** X2. The state series comes out in strictly ascending date order, one
    entry per date of the cleaned frame, each carrying the month of its
    date; the district and pincode tables come out in strictly ascending
    (identifier, date) order. *)
Theorem aggregates_sorted_by_key (raw : list RawRow) (state_filter : string) :
  let data := load_and_prepare raw state_filter in
  ascending (map m_date (monthly data))
  /\ (forall d, In d (map m_date (monthly data))
                <-> exists r, In r (df data) /\ date r = d)
  /\ Forall (fun m => m_month m = month (m_date m)) (monthly data)
  /\ ascending (map point_key (district_monthly data))
  /\ ascending (map point_key (pincode_monthly data)).
Proof.
  cbv zeta. unfold load_and_prepare, aggregate. simpl.
  set (rows := clean raw state_filter).
  assert (Ed : map m_date (state_monthly rows) = group_keys date rows).
  { unfold state_monthly. rewrite groupby_agg_map, map_map. simpl. apply map_id. }
  assert (Ek : forall entity,
             map point_key (entity_monthly entity rows)
             = group_keys (fun r => (entity r, date r)) rows).
  { intros entity. unfold entity_monthly. rewrite groupby_agg_map, map_map.
    rewrite <- (map_id (group_keys _ rows)) at 2. apply map_ext.
    intros [e d]. reflexivity. }
  rewrite Ed, !Ek. repeat split.
  - apply group_keys_ascending.
  - apply in_group_keys.
  - apply in_group_keys.
  - apply Forall_forall. intros m Hm. unfold state_monthly in Hm.
    apply in_groupby_agg in Hm. destruct Hm as (k & _ & ->). reflexivity.
  - apply group_keys_ascending.
  - apply group_keys_ascending.
Qed.

Lemma length_dropna_filter {A B} (f : A -> option B) (p : A -> bool) (l : list A) :
  length (dropna f (filter p l))
  = length (filter (fun x => p x && match f x with Some _ => true | None => false end) l).
Proof.
  induction l as [|x t IH]; simpl; [reflexivity|].
  destruct (p x); simpl; [|exact IH].
  destruct (f x); simpl; now rewrite IH.
Qed.

(** X3. The cleaned frame holds exactly the rows of the selected state
    that have a date, a district and a pincode, and the district and
    pincode of every row it holds carry no leading or trailing whitespace. *)
Theorem cleaned_frame_rows (raw : list RawRow) (state_filter : string) :
  let data := load_and_prepare raw state_filter in
  length (df data)
  = length (filter (fun r => state_matches state_filter r && has_keys r) raw)
  /\ Forall (fun r => trimmed (district r) /\ trimmed (pincode r)) (df data).
Proof.
  cbv zeta. unfold load_and_prepare, aggregate. simpl. split.
  - unfold clean. cbv zeta. rewrite length_dropna_filter. f_equal. apply filter_ext.
    intros r. f_equal. unfold clean_row, has_keys.
    destruct (raw_date r), (raw_district r), (raw_pincode r); reflexivity.
  - apply clean_rows_trimmed.
Qed.

Lemma sumZ_nonneg (l : list Z) : Forall (fun v => 0 <= v) l -> 0 <= sumZ l.
Proof. induction 1; simpl; lia. Qed.

Lemma group_rows_Forall {A K} `{OrdKey K} (key : A -> K) (P : A -> Prop) (k : K)
    (rows : list A) :
  Forall P rows -> Forall P (group_rows key k rows).
Proof.
  intros F. apply Forall_forall. intros r Hr. unfold group_rows in Hr.
  apply filter_In in Hr. rewrite Forall_forall in F. now apply F.
Qed.

Lemma clean_row_total_nonneg (r : Row) : clean_invariant r -> 0 <= total_enrolments r.
Proof.
  intros (H1 & H2 & H3 & ->). simpl.
  unfold nonneg_opt in *.
  destruct (age_0_5 r), (age_5_17 r), (age_18_greater r); lia.
Qed.

(** X4. When no age cell of the file is a negative number and the age
    cells add up to less than 2^53, no aggregate is negative: every age sum
    and total of the state series and every total of the district and
    pincode tables is at least zero. *)
Theorem aggregates_nonnegative (raw : list RawRow) (state_filter : string) :
  forallb nonneg_ages raw = true ->
  age_magnitude raw < 2 ^ 53 ->
  let data := load_and_prepare raw state_filter in
  Forall (fun m => 0 <= m_age_0_5 m /\ 0 <= m_age_5_17 m
                   /\ 0 <= m_age_18_greater m /\ 0 <= m_total m) (monthly data)
  /\ Forall (fun p => 0 <= e_total p) (district_monthly data)
  /\ Forall (fun p => 0 <= e_total p) (pincode_monthly data).
Proof.
  intros Hn Hmag. cbv zeta. unfold load_and_prepare, aggregate. simpl.
  pose proof (clean_rows_invariant raw state_filter Hn Hmag) as Hc.
  assert (He : forall entity,
             Forall (fun p => 0 <= e_total p)
               (entity_monthly entity (clean raw state_filter))).
  { intros entity. apply Forall_forall. intros p Hp. unfold entity_monthly in Hp.
    apply in_groupby_agg in Hp. destruct Hp as (k & _ & ->). simpl.
    apply sumZ_nonneg, Forall_map.
    eapply Forall_impl; [|apply group_rows_Forall; exact Hc].
    apply clean_row_total_nonneg. }
  split; [|split; apply He].
  eapply Forall_impl; [|apply state_monthly_invariant; exact Hc].
  intros m (H1 & H2 & H3 & H4). repeat split; lia.
Qed.

Lemma aggregates_nonnegative_witness :
  forallb nonneg_ages [maharashtra_row; zero_total_row; goa_row] = true
  /\ age_magnitude [maharashtra_row; zero_total_row; goa_row] < 2 ^ 53
  /\ Forall (fun p => 0 <= e_total p)
       (district_monthly
          (load_and_prepare [maharashtra_row; zero_total_row; goa_row] "Maharashtra")).
Proof.
  split; [reflexivity|]. split; [reflexivity|].
  exact (proj1 (proj2 (aggregates_nonnegative
                         [maharashtra_row; zero_total_row; goa_row] "Maharashtra"
                         eq_refl eq_refl))).
Defined.

Lemma group_total_split_plain (g : list Row) :
  Forall (fun r => total_enrolments r
                   = nansum [age_0_5 r; age_5_17 r; age_18_greater r]) g ->
  sumZ (map total_enrolments g)
  = nansum (map age_0_5 g) + nansum (map age_5_17 g) + nansum (map age_18_greater g).
Proof.
  induction 1 as [|r g Hr Hg IH]; simpl; [reflexivity|].
  rewrite Hr, IH. simpl.
  destruct (age_0_5 r), (age_5_17 r), (age_18_greater r); lia.
Qed.

Lemma monthly_total_split (raw : list RawRow) (state_filter : string) :
  age_magnitude raw < 2 ^ 53 ->
  Forall (fun m => m_total m = m_age_0_5 m + m_age_5_17 m + m_age_18_greater m)
    (monthly (load_and_prepare raw state_filter)).
Proof.
  intros Hmag. unfold load_and_prepare, aggregate. simpl.
  apply Forall_forall. intros m Hm. unfold state_monthly in Hm.
  apply in_groupby_agg in Hm. destruct Hm as (k & _ & ->). simpl.
  apply group_total_split_plain, group_rows_Forall.
  now apply clean_rows_total.
Qed.

(** X5. When the age cells of the file add up, in absolute value, to less
    than 2^53, the total of every entry of the state series is the sum of
    its three age sums, whatever else the age cells hold: a missing or
    non-numeric age counts as zero in the row total as in the age sum. *)
Theorem monthly_total_is_sum_of_ages (raw : list RawRow) (state_filter : string) :
  age_magnitude raw < 2 ^ 53 ->
  Forall (fun m => m_total m = m_age_0_5 m + m_age_5_17 m + m_age_18_greater m)
    (monthly (load_and_prepare raw state_filter)).
Proof. exact (monthly_total_split raw state_filter). Qed.

Lemma monthly_total_is_sum_of_ages_witness :
  age_magnitude [maharashtra_row; no_age_row; zero_total_row] < 2 ^ 53
  /\ Forall (fun m => m_total m = m_age_0_5 m + m_age_5_17 m + m_age_18_greater m)
       (monthly (load_and_prepare [maharashtra_row; no_age_row; zero_total_row]
                   "Maharashtra")).
Proof.
  split; [reflexivity|].
  exact (monthly_total_is_sum_of_ages [maharashtra_row; no_age_row; zero_total_row]
           "Maharashtra" eq_refl).
Defined.

(** ** Sorted output *)

Section SortFacts.
Context {A : Type} (leb : A -> A -> bool).
Hypothesis leb_total : forall x y, leb x y = true \/ leb y x = true.
Hypothesis leb_trans : forall x y z, leb x y = true -> leb y z = true -> leb x z = true.

Lemma insert_sorted_sorted (x : A) (l : list A) :
  StronglySorted (fun a b => leb a b = true) l ->
  StronglySorted (fun a b => leb a b = true) (insert_sorted leb x l).
Proof.
  induction 1 as [|h t St IH Hh]; simpl.
  - repeat constructor.
  - destruct (leb x h) eqn:E.
    + constructor; [now constructor|]. constructor; [exact E|].
      eapply Forall_impl; [|exact Hh]. intros y Hy. now apply (leb_trans x h y).
    + constructor; [exact IH|].
      apply Forall_forall. intros y Hy.
      apply (Permutation_in _ (insert_sorted_perm leb x t)) in Hy.
      destruct Hy as [<-|Hy].
      * destruct (leb_total x h) as [C|C]; [congruence | exact C].
      * rewrite Forall_forall in Hh. now apply Hh.
Qed.

Lemma sort_by_sorted (l : list A) :
  StronglySorted (fun a b => leb a b = true) (sort_by leb l).
Proof.
  induction l as [|x t IH]; simpl; [constructor|].
  now apply insert_sorted_sorted.
Qed.
End SortFacts.

Lemma Qle_bool_total (a b : Q) : Qle_bool a b = true \/ Qle_bool b a = true.
Proof.
  destruct (Qlt_le_dec b a) as [H|H].
  - right. apply Qle_bool_iff. now apply Qlt_le_weak.
  - left. now apply Qle_bool_iff.
Qed.

Lemma Qltb_false_le (a b : Q) : Qltb a b = false <-> (b <= a)%Q.
Proof. unfold Qltb. rewrite negb_false_iff. apply Qle_bool_iff. Qed.

Lemma fval_leb_nan_last_total (x y : fval) :
  fval_leb_nan_last x y = true \/ fval_leb_nan_last y x = true.
Proof.
  destruct x as [a| | |], y as [b| | |]; simpl; auto.
  unfold Qltb. rewrite !negb_involutive. apply Qle_bool_total.
Qed.

Lemma fval_leb_nan_last_trans (x y z : fval) :
  fval_leb_nan_last x y = true -> fval_leb_nan_last y z = true ->
  fval_leb_nan_last x z = true.
Proof.
  destruct x as [a| | |], y as [b| | |], z as [c| | |]; simpl; auto; try discriminate.
  unfold Qltb. rewrite !negb_involutive, !Qle_bool_iff. apply Qle_trans.
Qed.

Lemma fval_geb_nan_last_total (x y : fval) :
  fval_geb_nan_last x y = true \/ fval_geb_nan_last y x = true.
Proof.
  destruct x as [a| | |], y as [b| | |]; simpl; auto.
  unfold Qltb. rewrite !negb_involutive. apply Qle_bool_total.
Qed.

Lemma fval_geb_nan_last_trans (x y z : fval) :
  fval_geb_nan_last x y = true -> fval_geb_nan_last y z = true ->
  fval_geb_nan_last x z = true.
Proof.
  destruct x as [a| | |], y as [b| | |], z as [c| | |]; simpl; auto; try discriminate.
  unfold Qltb. rewrite !negb_involutive, !Qle_bool_iff. intros H1 H2.
  eapply Qle_trans; eassumption.
Qed.

(** X6. The flag table is ordered by saturation index, ascending, with
    the rows whose index is undefined at the end: no row is followed by a
    row of smaller index, and once an undefined index appears every later
    one is undefined too. *)
Theorem flags_sorted_by_saturation_index (district_monthly : list EntityPoint) :
  let flags := _district_saturation_flags district_monthly in
  StronglySorted
    (fun a b => fval_leb_nan_last (f_saturation_index a) (f_saturation_index b) = true)
    flags
  /\ (forall before a after,
        flags = before ++ a :: after -> f_saturation_index a = NaN ->
        Forall (fun b => f_saturation_index b = NaN) after).
Proof.
  cbv zeta.
  assert (S : StronglySorted
                (fun a b => fval_leb_nan_last (f_saturation_index a)
                              (f_saturation_index b) = true)
                (_district_saturation_flags district_monthly)).
  { unfold _district_saturation_flags.
    apply (sort_by_sorted
             (fun a b => fval_leb_nan_last (f_saturation_index a) (f_saturation_index b))).
    - intros x y. apply fval_leb_nan_last_total.
    - intros x y z. apply fval_leb_nan_last_trans. }
  split; [exact S|].
  intros before a after E Ha. rewrite E in S. clear E.
  induction before as [|h t IH]; simpl in S.
  - inversion S as [|? ? _ Hall]; subst.
    eapply Forall_impl; [|exact Hall]. intros b Hb. simpl in Hb.
    rewrite Ha in Hb. now destruct (f_saturation_index b).
  - inversion S; subst. auto.
Qed.

(** ** District flags *)

Lemma tail1_NoDup {A K} `{OrdKey K} (key : A -> K) (l : list A) :
  NoDup (map key (tail1 (fun a b => keqb (key a) (key b)) l)).
Proof.
  induction l as [|h t IH]; simpl; [constructor|].
  destruct (existsb _ t) eqn:E; [exact IH|].
  simpl. constructor; [|exact IH].
  intros Hin. apply in_map_iff in Hin. destruct Hin as (y & Ey & Hy).
  apply tail1_incl in Hy.
  apply not_true_iff_false in E. apply E. apply existsb_exists.
  exists y. split; [exact Hy|]. apply keqb_eq. congruence.
Qed.

Lemma districts_of_windows (dm : list EntityPoint) :
  map dm_district (with_windows dm) = map e_entity dm.
Proof.
  unfold with_windows. rewrite map_map. simpl.
  rewrite <- (map_fst_rank_in_group [] dm) at 2. now rewrite map_map.
Qed.

Lemma districts_of_flags (dm : list EntityPoint) :
  Permutation (map f_district (_district_saturation_flags dm))
    (map dm_district (last_snapshot dm)).
Proof.
  unfold _district_saturation_flags. fold (last_snapshot dm).
  rewrite (Permutation_map f_district (sort_by_perm _ _)).
  rewrite map_map. reflexivity.
Qed.

Lemma flag_rows_facts (district_monthly : list EntityPoint) :
  let flags := _district_saturation_flags district_monthly in
  NoDup (map f_district flags)
  /\ (forall d, In d (map f_district flags)
                <-> exists p, In p district_monthly /\ e_entity p = d)
  /\ length flags = length (group_keys e_entity district_monthly).
Proof.
  cbv zeta. pose proof (districts_of_flags district_monthly) as P.
  assert (ND : NoDup (map dm_district (last_snapshot district_monthly))).
  { unfold last_snapshot, same_district. apply tail1_NoDup. }
  assert (Hin : forall d, In d (map dm_district (last_snapshot district_monthly))
                          <-> exists p, In p district_monthly /\ e_entity p = d).
  { intros d. split.
    - intros Hd. apply in_map_iff in Hd. destruct Hd as (r & <- & Hr).
      apply in_last_snapshot in Hr. destruct Hr as (p & j & -> & Hp & _).
      exists p. split; [exact Hp | reflexivity].
    - intros (p & Hp & <-). destruct (snapshot_covers _ _ Hp) as (r & Hr & Er).
      rewrite <- Er. now apply in_map. }
  assert (ND' : NoDup (map f_district (_district_saturation_flags district_monthly))).
  { eapply Permutation_NoDup; [apply Permutation_sym; exact P | exact ND]. }
  assert (Hin' : forall d,
             In d (map f_district (_district_saturation_flags district_monthly))
             <-> exists p, In p district_monthly /\ e_entity p = d).
  { intros d. rewrite <- Hin. split; apply Permutation_in;
      [exact P | apply Permutation_sym; exact P]. }
  split; [exact ND'|]. split; [exact Hin'|].
  rewrite <- (length_map f_district). apply Permutation_length.
  apply NoDup_Permutation; [exact ND' | apply ascending_NoDup, group_keys_ascending |].
  intros d. rewrite Hin', in_group_keys. reflexivity.
Qed.

(** X7. The flag table has exactly one row per district of the district
    table: its districts are pairwise different, they are the districts
    that occur in the table, and their number is the number of distinct
    districts. *)
Theorem one_flag_row_per_district (district_monthly : list EntityPoint) :
  let flags := _district_saturation_flags district_monthly in
  NoDup (map f_district flags)
  /\ (forall d, In d (map f_district flags)
                <-> exists p, In p district_monthly /\ e_entity p = d)
  /\ length flags = length (group_keys e_entity district_monthly).
Proof. exact (flag_rows_facts district_monthly). Qed.

(** X8. A district with fewer than three monthly points has no window
    statistic at all: its saturation index is undefined and none of its
    three flags is raised. *)
Theorem under_three_points_no_flag (dm : list EntityPoint) (d : string) :
  (points_of d dm < 3)%nat ->
  forall f, In f (_district_saturation_flags dm) -> f_district f = d ->
    f_saturation_index f = NaN
    /\ saturation_risk f = false /\ low_momentum f = false /\ volatile f = false.
Proof.
  intros L f Hf Ed. apply in_flags in Hf. destruct Hf as (thr & r & Hr & ->).
  apply in_last_snapshot in Hr. destruct Hr as (p & j & -> & _ & _).
  simpl in Ed. subst d.
  destruct (short_history_windows dm p j) as [Ha Hs]; [lia|].
  assert (H3 : transform_at NaN (rolling NaN 3 3 meanZ) (sort_by point_leb dm) (p, j)
               = NaN).
  { unfold transform_at. simpl. apply rolling_short. now rewrite series_length. }
  set (w := window_row (sort_by point_leb dm) (p, j)) in *.
  assert (Hr3 : rolling3_avg w = NaN) by exact H3.
  assert (Hsi : saturation_index w = NaN).
  { subst w. unfold window_row. simpl. now rewrite H3. }
  clearbody w. unfold flag_row. simpl. rewrite Hs, Hr3, Hsi. repeat split.
Qed.

Lemma under_three_points_no_flag_witness :
  (points_of "Akola" two_months_of_akola < 3)%nat
  /\ forall f, In f (_district_saturation_flags two_months_of_akola) ->
       f_district f = "Akola"%string ->
       f_saturation_index f = NaN
       /\ saturation_risk f = false /\ low_momentum f = false /\ volatile f = false.
Proof.
  assert (L : (points_of "Akola" two_months_of_akola < 3)%nat) by (vm_compute; lia).
  split; [exact L | exact (under_three_points_no_flag _ _ L)].
Defined.

(** At the snapshot row of a district a window statistic is the statistic
    of the district's whole series. *)
Lemma snapshot_row_stat {B} (nan : B) (w minp : nat) (stat : list Z -> B)
    (dm : list EntityPoint) (p : EntityPoint) (j : nat) :
  S j = points_of (e_entity p) dm ->
  transform_at nan (rolling nan w minp stat) (sort_by point_leb dm) (p, j)
  = rolling_at nan w minp stat
      (map e_total (group_rows e_entity (e_entity p) (sort_by point_leb dm))).
Proof.
  intros Hj. unfold transform_at. simpl.
  set (s := map e_total _).
  assert (Ls : length s = S j) by (subst s; now rewrite series_length).
  rewrite nth_rolling by lia. now rewrite <- Ls, firstn_all.
Qed.

Lemma in_lastn {A} (n : nat) (l : list A) (x : A) : In x (lastn n l) -> In x l.
Proof.
  unfold lastn. intros Hx. rewrite <- (firstn_skipn (length l - n) l).
  apply in_or_app. now right.
Qed.

Lemma lastn_lastn_incl {A} (n m : nat) (l : list A) (x : A) :
  (n <= m)%nat -> In x (lastn n l) -> In x (lastn m l).
Proof.
  unfold lastn. intros Hnm Hx.
  replace (length l - n)%nat
    with ((length l - n - (length l - m)) + (length l - m))%nat in Hx by lia.
  rewrite <- skipn_skipn in Hx.
  rewrite <- (firstn_skipn (length l - n - (length l - m)) (skipn (length l - m) l)).
  apply in_or_app. now right.
Qed.

Lemma fold_left_max_bounds (t : list Z) (h : Z) :
  h <= fold_left Z.max t h /\ Forall (fun x => x <= fold_left Z.max t h) t.
Proof.
  revert h. induction t as [|x t IH]; intros h; simpl.
  - split; [lia | constructor].
  - destruct (IH (Z.max h x)) as [H1 H2]. split; [lia|].
    constructor; [lia | exact H2].
Qed.

Lemma maxZ_bounds (l : list Z) :
  l <> [] ->
  exists M, maxZ l = ofZ M /\ Forall (fun x => x <= M) l /\ In M l.
Proof.
  destruct l as [|h t]; [congruence|]. intros _. simpl.
  exists (fold_left Z.max t h). split; [reflexivity|].
  destruct (fold_left_max_bounds t h) as [H1 H2].
  split; [constructor; assumption|].
  clear H1 H2. revert h. induction t as [|x t IH]; intros h; simpl; [now left|].
  destruct (IH (Z.max h x)) as [E|Hin]; [|right; right; exact Hin].
  rewrite <- E.
  destruct (Z.max_spec h x) as [[_ Em]|[_ Em]]; rewrite Em;
    [right; left | left]; reflexivity.
Qed.

Lemma sumZ_bounds (l : list Z) (M : Z) :
  Forall (fun x => 0 <= x <= M) l -> 0 <= sumZ l <= Z.of_nat (length l) * M.
Proof.
  induction 1 as [|x t Hx Ht IH]; [simpl; lia|].
  cbn [length]. rewrite Nat2Z.inj_succ. unfold sumZ in *. cbn [fold_right]. nia.
Qed.

Lemma unit_ratio (a n M : Z) :
  0 < n -> 0 < M -> 0 <= a <= n * M ->
  (0 <= inject_Z a / inject_Z n / inject_Z M <= 1)%Q.
Proof.
  intros Hn HM Ha.
  assert (Qn : (0 < inject_Z n)%Q) by (rewrite <- (Zlt_Qlt 0); lia).
  assert (QM : (0 < inject_Z M)%Q) by (rewrite <- (Zlt_Qlt 0); lia).
  split.
  - apply Qle_shift_div_l; [exact QM|]. rewrite Qmult_0_l.
    apply Qle_shift_div_l; [exact Qn|]. rewrite Qmult_0_l.
    rewrite <- (Zle_Qle 0). lia.
  - apply Qle_shift_div_r; [exact QM|]. rewrite Qmult_1_l.
    apply Qle_shift_div_r; [exact Qn|].
    rewrite <- inject_Z_mult, <- Zle_Qle. lia.
Qed.

(** X9. When no total of the district table is negative, the saturation
    index of every district is either undefined or a value between 0 and 1:
    the mean of the last three points never exceeds the maximum of the last
    twelve, and a zero maximum gives an undefined index, not an infinite
    one. *)
Theorem saturation_index_in_unit_interval (dm : list EntityPoint) :
  Forall (fun p => 0 <= e_total p) dm ->
  Forall (fun f => unit_or_nan (f_saturation_index f)) (_district_saturation_flags dm).
Proof.
  intros Hnn. apply Forall_forall. intros f Hf.
  apply in_flags in Hf. destruct Hf as (thr & r & Hr & ->).
  apply in_last_snapshot in Hr. destruct Hr as (p & j & -> & _ & Hj).
  unfold flag_row, window_row. simpl.
  rewrite !(snapshot_row_stat _ _ _ _ dm p j Hj).
  set (s := map e_total (group_rows e_entity (e_entity p) (sort_by point_leb dm))).
  assert (Hs : Forall (fun x => 0 <= x) s).
  { subst s. apply Forall_map. apply group_rows_Forall.
    eapply Permutation_Forall; [apply Permutation_sym, sort_by_perm | exact Hnn]. }
  unfold rolling_at.
  destruct (Nat.leb_spec 3 (length (lastn 3 s))) as [L3|L3]; [|now left].
  rewrite length_lastn in L3.
  assert (L12 : (3 <= length (lastn 12 s))%nat) by (rewrite length_lastn; lia).
  apply Nat.leb_le in L12. rewrite L12.
  assert (N3 : lastn 3 s <> []).
  { intros E. apply (f_equal (@length Z)) in E. rewrite length_lastn in E.
    change (length (@nil Z)) with 0%nat in E. lia. }
  assert (N12 : lastn 12 s <> []).
  { intros E. rewrite E in L12. discriminate L12. }
  destruct (maxZ_bounds _ N12) as (M & -> & HM & HinM).
  rewrite (meanZ_nonempty _ N3).
  assert (HM0 : 0 <= M).
  { rewrite Forall_forall in Hs. apply Hs. eapply in_lastn. exact HinM. }
  assert (Hw : Forall (fun x => 0 <= x <= M) (lastn 3 s)).
  { apply Forall_forall. intros x Hx. split.
    - rewrite Forall_forall in Hs. apply Hs. eapply in_lastn. exact Hx.
    - rewrite Forall_forall in HM. apply HM.
      apply (lastn_lastn_incl 3 12); [lia | exact Hx]. }
  apply sumZ_bounds in Hw.
  assert (Hlen : 0 < Z.of_nat (length (lastn 3 s))).
  { destruct (lastn 3 s); [congruence | simpl length; lia]. }
  unfold ofZ, fdiv. rewrite Qeq_bool_inject_Z_0.
  destruct (Z.eqb_spec M 0) as [E0|HMne].
  - subst M. assert (E : sumZ (lastn 3 s) = 0) by lia. rewrite E.
    left. reflexivity.
  - right. eexists. split; [reflexivity|]. apply unit_ratio; lia.
Qed.

Lemma saturation_index_in_unit_interval_witness :
  Forall (fun p => 0 <= e_total p) five_months_of_satara
  /\ Forall (fun f => unit_or_nan (f_saturation_index f))
       (_district_saturation_flags five_months_of_satara).
Proof.
  assert (H : Forall (fun p => 0 <= e_total p) five_months_of_satara).
  { unfold five_months_of_satara. repeat constructor; simpl; lia. }
  split; [exact H | exact (saturation_index_in_unit_interval _ H)].
Defined.

(** ** Seasonality table *)

Lemma length_insert_key {K} `{OrdKey K} (k : K) (ks : list K) :
  (length (insert_key k ks) <= S (length ks))%nat.
Proof.
  induction ks as [|h t IH]; cbn [insert_key length]; [lia|].
  destruct (cmp k h); cbn [length]; lia.
Qed.

Lemma length_group_keys {A K} `{OrdKey K} (key : A -> K) (rows : list A) :
  (length (group_keys key rows) <= length rows)%nat.
Proof.
  induction rows as [|r t IH]; cbn [group_keys fold_right length]; [lia|].
  pose proof (length_insert_key (key r) (group_keys key t)) as L.
  unfold group_keys in *. lia.
Qed.

(** X10. The seasonality table has one row per month-of-year that occurs
    in the state series, in strictly ascending month order, and no row for
    a month that does not occur. *)
Theorem seasonality_one_row_per_observed_month (monthly : list MonthlyRow) :
  ascending (map fst (_seasonality_index monthly))
  /\ (forall m, In m (map fst (_seasonality_index monthly))
                <-> exists e, In e monthly /\ m_month e = m)
  /\ (length (_seasonality_index monthly) <= length monthly)%nat.
Proof.
  rewrite <- (length_map fst), seasonality_months. repeat split.
  - apply group_keys_ascending.
  - apply in_group_keys.
  - apply in_group_keys.
  - apply length_group_keys.
Qed.



(** ** Rankings *)

Lemma sorted_head_dominates {A} (leb : A -> A -> bool) (l : list A) (x : A) (xs : list A) :
  (forall a b, leb a b = true \/ leb b a = true) ->
  (forall a b c, leb a b = true -> leb b c = true -> leb a c = true) ->
  sort_by leb l = x :: xs ->
  In x l /\ forall y, In y l -> leb x y = true.
Proof.
  intros Htot Htr E.
  pose proof (sort_by_sorted leb Htot Htr l) as S. rewrite E in S.
  pose proof (sort_by_perm leb l) as P. rewrite E in P.
  split.
  - apply (Permutation_in _ P). now left.
  - intros y Hy. apply (Permutation_in _ (Permutation_sym P)) in Hy.
    inversion S as [|? ? _ Hall]; subst.
    destruct Hy as [<-|Hy].
    + destruct (Htot x x); assumption.
    + rewrite Forall_forall in Hall. now apply Hall.
Qed.

Lemma peak_months_are_peaks_aux (seasonal : list (Z * fval)) :
  length (top_months_of seasonal) = Nat.min 2 (length seasonal)
  /\ (forall m, In m (top_months_of seasonal) -> In m (map fst seasonal)).
Proof.
  unfold top_months_of, head.
  set (leb := fun a b : Z * fval => fval_geb_nan_last (snd a) (snd b)).
  pose proof (sort_by_perm leb seasonal) as P. split.
  - rewrite length_map, length_firstn, (Permutation_length P). reflexivity.
  - intros m Hm. apply in_map_iff in Hm. destruct Hm as (r & <- & Hr).
    apply in_map. apply (Permutation_in _ P).
    rewrite <- (firstn_skipn 2 (sort_by leb seasonal)). apply in_or_app. now left.
Qed.

(** X12. The peak months are taken from the seasonality table: there are
    at most two (exactly two when the table has two rows or more), each is
    a month of the table, and the first one carries an index that no row of
    the table exceeds. *)
Theorem peak_months_are_peaks (seasonal : list (Z * fval)) :
  length (top_months_of seasonal) = Nat.min 2 (length seasonal)
  /\ (forall m, In m (top_months_of seasonal) -> In m (map fst seasonal))
  /\ (forall m rest, top_months_of seasonal = m :: rest ->
        exists v, In (m, v) seasonal
                  /\ forall r, In r seasonal -> fval_geb_nan_last v (snd r) = true).
Proof.
  destruct (peak_months_are_peaks_aux seasonal) as [HL Hmem].
  split; [exact HL|]. split; [exact Hmem|].
  unfold top_months_of, head.
  set (leb := fun a b : Z * fval => fval_geb_nan_last (snd a) (snd b)).
  intros m rest E.
  destruct (sort_by leb seasonal) as [|[m' v] xs] eqn:Es; [discriminate E|].
  simpl in E. injection E as <- _.
  destruct (sorted_head_dominates leb seasonal (m', v) xs) as [Hin Hdom].
  - intros a b. apply fval_geb_nan_last_total.
  - intros a b c. apply fval_geb_nan_last_trans.
  - exact Es.
  - exists v. split; [exact Hin|]. intros r Hr. exact (Hdom r Hr).
Qed.

Lemma StronglySorted_impl {A} (R R' : A -> A -> Prop) (l : list A) :
  (forall a b, R a b -> R' a b) -> StronglySorted R l -> StronglySorted R' l.
Proof.
  intros HR. induction 1 as [|x l Sl IH Hx]; constructor; [exact IH|].
  eapply Forall_impl; [|exact Hx]. intros y. apply HR.
Qed.

Lemma Zgeb_total (a b : string * Z) :
  (snd b <=? snd a) = true \/ (snd a <=? snd b) = true.
Proof. rewrite !Z.leb_le. lia. Qed.

Lemma Zgeb_trans (a b c : string * Z) :
  (snd b <=? snd a) = true -> (snd c <=? snd b) = true -> (snd c <=? snd a) = true.
Proof. rewrite !Z.leb_le. lia. Qed.

Lemma district_sums (points : list EntityPoint) :
  map fst (groupby_agg e_entity district_sum points) = group_keys e_entity points.
Proof. rewrite groupby_agg_map, map_map. simpl. apply map_id. Qed.

Lemma dist_totals_of_facts (points : list EntityPoint) :
  let ranking := dist_totals_of points in
  StronglySorted (fun a b => snd b <= snd a) ranking
  /\ NoDup (map fst ranking)
  /\ (forall d, In d (map fst ranking) <-> exists p, In p points /\ e_entity p = d)
  /\ sumZ (map snd ranking) = sumZ (map e_total points).
Proof.
  cbv zeta. unfold dist_totals_of.
  set (leb := fun a b : string * Z => snd b <=? snd a).
  pose proof (sort_by_perm leb (groupby_agg e_entity district_sum points)) as P.
  pose proof (Permutation_map fst P) as Pf. rewrite district_sums in Pf.
  repeat split.
  - eapply StronglySorted_impl;
      [|apply (sort_by_sorted leb Zgeb_total Zgeb_trans)].
    intros a b Hab. now apply Z.leb_le.
  - eapply Permutation_NoDup; [apply Permutation_sym; exact Pf|].
    apply ascending_NoDup, group_keys_ascending.
  - intros Hd. apply (Permutation_in _ Pf) in Hd. now apply in_group_keys in Hd.
  - intros Hd. apply (Permutation_in _ (Permutation_sym Pf)). now apply in_group_keys.
  - rewrite (sumZ_perm _ _ (Permutation_map snd P)).
    apply (sum_of_groupby e_entity district_sum e_total snd). reflexivity.
Qed.


(** X14. The two district panels of the disparity chart are cut from one
    ranking of the recent window. With at most 15 districts both panels
    show the whole ranking; with 30 or more they share no district and no
    district of the bottom panel has a larger total than one of the top
    panel. *)
Theorem district_panels (data : Data) :
  let ranking :=
    dist_totals_of (recent_points (monthly data) (district_monthly data)) in
  let figs := build_figures data in
  length (fig_top15 figs) = Nat.min 15 (length ranking)
  /\ length (fig_bottom15 figs) = Nat.min 15 (length ranking)
  /\ ((length ranking <= 15)%nat ->
      fig_top15 figs = ranking /\ fig_bottom15 figs = ranking)
  /\ ((30 <= length ranking)%nat ->
      forall x y, In x (fig_top15 figs) -> In y (fig_bottom15 figs) ->
                  snd y <= snd x /\ fst x <> fst y).
Proof.
  cbv zeta.
  set (points := recent_points (monthly data) (district_monthly data)).
  set (ranking := dist_totals_of points).
  change (fig_top15 (build_figures data)) with (firstn 15 ranking).
  change (fig_bottom15 (build_figures data)) with (lastn 15 ranking).
  destruct (dist_totals_of_facts points) as (S & ND & _ & _). fold ranking in S, ND.
  split; [apply length_firstn|]. split; [apply length_lastn|]. split.
  - intros L. split; [now apply firstn_all2|].
    unfold lastn. replace (length ranking - 15)%nat with 0%nat by lia. reflexivity.
  - intros L x y Hx Hy.
    assert (Hy' : In y (skipn 15 ranking)).
    { unfold lastn in Hy.
      replace (length ranking - 15)%nat
        with ((length ranking - 30) + 15)%nat in Hy by lia.
      rewrite <- skipn_skipn in Hy.
      rewrite <- (firstn_skipn (length ranking - 30) (skipn 15 ranking)).
      apply in_or_app. now right. }
    clear Hy. rewrite <- (firstn_skipn 15 ranking) in S, ND.
    rewrite map_app in ND.
    revert Hx Hy' S ND. generalize (firstn 15 ranking) (skipn 15 ranking).
    intros l1 l2 Hx Hy S ND. induction l1 as [|h t IH]; [destruct Hx|].
    simpl in S, ND. inversion S as [|? ? St Hall]; subst.
    inversion ND as [|? ? Hnot ND']; subst.
    destruct Hx as [<-|Hx]; [|now apply IH].
    split.
    + rewrite Forall_forall in Hall. apply Hall. apply in_or_app. now right.
    + intros E. apply Hnot. rewrite E. apply in_or_app. right. now apply in_map.
Qed.

(** ** Synthesizer: the recommendations *)

Lemma iloc_in_range {A} (l : list A) (i : Z) :
  - Z.of_nat (length l) <= i < Z.of_nat (length l) ->
  exists x, iloc l i = Ok x /\ In x l.
Proof.
  intros Hi. unfold iloc.
  set (n := Z.of_nat (length l)) in *.
  set (j := if i <? 0 then n + i else i).
  assert (Hj : 0 <= j < n).
  { subst j. destruct (Z.ltb_spec i 0); lia. }
  destruct (Z.leb_spec 0 j); [|lia]. destruct (Z.ltb_spec j n); [|lia]. simpl.
  destruct (nth_error l (Z.to_nat j)) as [x|] eqn:E.
  - exists x. split; [reflexivity|]. eapply nth_error_In. exact E.
  - apply nth_error_None in E. lia.
Qed.

Lemma length_lastn_one {A} (l : list A) : l <> [] -> length (lastn 1 l) = 1%nat.
Proof.
  intros Hne. rewrite length_lastn. destruct l; [congruence | simpl length; lia].
Qed.

Lemma latest_child_share (monthly : list MonthlyRow) :
  monthly <> [] ->
  exists s, iloc (tail 1 (map child_share (_child_momentum monthly))) 0 = Ok s
            /\ In s (map child_share (_child_momentum monthly)).
Proof.
  intros Hne. unfold tail.
  set (shares := map child_share (_child_momentum monthly)).
  assert (Hs : shares <> []).
  { subst shares. unfold _child_momentum. intros E.
    apply map_eq_nil in E. apply map_eq_nil in E. contradiction. }
  destruct (iloc_in_range (lastn 1 shares) 0) as (s & Es & Hin).
  - rewrite (length_lastn_one _ Hs). lia.
  - exists s. split; [exact Es|]. eapply in_lastn. exact Hin.
Qed.

Lemma length_pos_nonempty {A} (l : list A) : (0 <? length l)%nat = true <-> l <> [].
Proof.
  destruct l; simpl; split; intros; try congruence; try discriminate.
  reflexivity.
Qed.

Lemma mapM_ok {A B} (f : A -> result B) (l : list A) :
  (forall x, In x l -> exists y, f x = Ok y) ->
  exists ys, mapM f l = Ok ys /\ length ys = length l.
Proof.
  induction l as [|x t IH]; intros Hf; simpl.
  - exists []. split; reflexivity.
  - destruct (Hf x (or_introl eq_refl)) as (y & ->). simpl.
    destruct IH as (ys & -> & L); [intros z Hz; apply Hf; now right|].
    simpl. exists (y :: ys). split; [reflexivity | simpl; now rewrite L].
Qed.

Lemma month_name_ok (m : Z) : 1 <= m <= 12 -> exists n, month_name m = Ok n.
Proof.
  intros Hm. destruct (iloc_in_range month_names m) as (n & E & _).
  - simpl. lia.
  - exists n. exact E.
Qed.

Lemma rec_seasonal_ok (monthly : list MonthlyRow) :
  Forall (fun m => 1 <= m_month m <= 12) monthly ->
  exists r, rec_seasonal monthly = Ok r.
Proof.
  intros Hm. unfold rec_seasonal.
  destruct (0 <? length (_seasonality_index monthly))%nat; [|eexists; reflexivity].
  destruct (mapM_ok month_name (top_months_of (_seasonality_index monthly)))
    as (names & -> & _).
  - intros m Hin. apply month_name_ok.
    apply (proj2 (peak_months_are_peaks_aux _)) in Hin.
    rewrite seasonality_months in Hin. apply in_group_keys in Hin.
    destruct Hin as (e & He & <-). rewrite Forall_forall in Hm. now apply Hm.
  - simpl. eexists. reflexivity.
Qed.

(** X16. For a state series whose months-of-year lie in 1..12, as those of
    real dates do, [generate_recommendations] never raises and returns
    exactly five recommendations. *)
Theorem generate_recommendations_returns_five (data : Data) :
  Forall (fun m => 1 <= m_month m <= 12) (monthly data) ->
  exists r1 r2 r3 r4 r5, generate_recommendations data = Ok [r1; r2; r3; r4; r5].
Proof.
  intros Hm. unfold generate_recommendations.
  assert (E1 : exists r, rec_child (monthly data) = Ok r).
  { unfold rec_child.
    destruct (0 <? length (_child_momentum (monthly data)))%nat eqn:E;
      [|eexists; reflexivity].
    apply length_pos_nonempty in E.
    assert (Hne : monthly data <> []) by (intros E0; rewrite E0 in E; now apply E).
    destruct (latest_child_share _ Hne) as (s & -> & _). simpl.
    eexists. reflexivity. }
  destruct E1 as (r1 & ->).
  assert (E2 : exists r, rec_mobile_units (monthly data) (district_monthly data) = Ok r).
  { unfold rec_mobile_units. destruct (map fst _); eexists; reflexivity. }
  destruct E2 as (r2 & ->).
  destruct (rec_seasonal_ok _ Hm) as (r3 & ->).
  assert (E4 : exists r,
             rec_volatile (_district_saturation_flags (district_monthly data)) = Ok r).
  { unfold rec_volatile. destruct (0 <? _)%nat; eexists; reflexivity. }
  destruct E4 as (r4 & ->).
  simpl. do 5 eexists. reflexivity.
Qed.

Lemma generate_recommendations_returns_five_witness :
  Forall (fun m => 1 <= m_month m <= 12)
    (monthly (load_and_prepare [maharashtra_row; zero_total_row] "Maharashtra"))
  /\ exists r1 r2 r3 r4 r5,
       generate_recommendations
         (load_and_prepare [maharashtra_row; zero_total_row] "Maharashtra")
       = Ok [r1; r2; r3; r4; r5].
Proof.
  assert (H : Forall (fun m => 1 <= m_month m <= 12)
                (monthly (load_and_prepare [maharashtra_row; zero_total_row]
                            "Maharashtra"))).
  { vm_compute. repeat constructor; discriminate. }
  split; [exact H | exact (generate_recommendations_returns_five _ H)].
Defined.

(** ** Synthesizer: what the texts quote *)

Lemma sumZ_map_add3 {A} (f g h t : A -> Z) (l : list A) :
  Forall (fun x => t x = f x + g x + h x) l ->
  sumZ (map t l) = sumZ (map f l) + sumZ (map g l) + sumZ (map h l).
Proof. induction 1 as [|x l Hx Hl IH]; simpl; lia. Qed.

(** X18. When the age cells of the file add up, in absolute value, to
    less than 2^53 and the totals of the state series do not add up to
    zero, the three age shares quoted by the age insight are finite and add
    up to 1. *)
Theorem age_shares_sum_to_one (raw : list RawRow) (state_filter : string) :
  age_magnitude raw < 2 ^ 53 ->
  sumZ (map m_total (monthly (load_and_prepare raw state_filter))) <> 0 ->
  exists a b c,
    insight_age_stacked (monthly (load_and_prepare raw state_filter))
    = Ok (mkInsight "Stacked area of age-group enrolments"
            [Lit "Shares — 0–5: "; Pct1 (Fin a); Lit ", 5–17: "; Pct1 (Fin b);
             Lit ", 18+: "; Pct1 (Fin c); Lit "."]
            "Helps target initiatives for children, students, and adults.")
    /\ a + b + c == 1.
Proof.
  intros Hmag Hs. set (m := monthly (load_and_prepare raw state_filter)) in *.
  assert (Hne : m <> []) by (intros E; rewrite E in Hs; now apply Hs).
  assert (L : (0 <? length m)%nat = true) by now apply length_pos_nonempty.
  pose proof (sumZ_map_add3 m_age_0_5 m_age_5_17 m_age_18_greater m_total m
                (monthly_total_split raw state_filter Hmag)) as Esum.
  unfold insight_age_stacked. rewrite L.
  set (S := sumZ (map m_total m)) in *.
  destruct (Z.eqb_spec S 0) as [E0|_]; [contradiction|]. simpl negb. cbv iota.
  unfold ofZ, fdiv, fillna. rewrite !Qeq_bool_inject_Z_0.
  destruct (Z.eqb_spec S 0) as [E0|_]; [contradiction|]. simpl.
  do 3 eexists. split; [reflexivity|].
  assert (HS : ~ inject_Z S == 0).
  { intros E. unfold Qeq in E. simpl in E. lia. }
  rewrite Esum in HS |- *. rewrite !inject_Z_plus in *. field. exact HS.
Qed.

Lemma age_shares_sum_to_one_witness :
  age_magnitude [maharashtra_row] < 2 ^ 53
  /\ sumZ (map m_total (monthly (load_and_prepare [maharashtra_row] "Maharashtra"))) <> 0
  /\ exists a b c,
       insight_age_stacked (monthly (load_and_prepare [maharashtra_row] "Maharashtra"))
       = Ok (mkInsight "Stacked area of age-group enrolments"
               [Lit "Shares — 0–5: "; Pct1 (Fin a); Lit ", 5–17: "; Pct1 (Fin b);
                Lit ", 18+: "; Pct1 (Fin c); Lit "."]
               "Helps target initiatives for children, students, and adults.")
       /\ a + b + c == 1.
Proof.
  assert (H : sumZ (map m_total
                      (monthly (load_and_prepare [maharashtra_row] "Maharashtra")))
              <> 0) by (vm_compute; discriminate).
  split; [reflexivity|].
  split; [exact H | exact (age_shares_sum_to_one [maharashtra_row] "Maharashtra" eq_refl H)].
Defined.



(** ** The lookback window *)

Lemma kltb_false_trans {K} `{OrdKey K} (a b c : K) :
  kltb a b = false -> kltb b c = false -> kltb a c = false.
Proof.
  unfold kltb. intros Hab Hbc.
  destruct (cmp a c) eqn:Eac; try reflexivity.
  destruct (cmp b c) eqn:Ebc; try discriminate.
  - apply cmp_eq in Ebc. subst c. now rewrite Eac in Hab.
  - assert (Ecb : cmp c b = Lt) by now apply cmp_Gt_Lt.
    now rewrite (cmp_trans _ _ _ Eac Ecb) in Hab.
Qed.

Lemma kltb_irrefl {K} `{OrdKey K} (a : K) : kltb a a = false.
Proof. unfold kltb. now rewrite cmp_refl. Qed.

Lemma kltb_asym {K} `{OrdKey K} (a b : K) : kltb a b = true -> kltb b a = false.
Proof.
  unfold kltb. destruct (cmp a b) eqn:E; try discriminate. intros _.
  now rewrite (cmp_Lt_Gt _ _ E).
Qed.

Lemma fold_max_spec {K} `{OrdKey K} (t : list K) (d : K) :
  let r := fold_left (fun a b => if kltb a b then b else a) t d in
  In r (d :: t) /\ kltb r d = false /\ forall x, In x t -> kltb r x = false.
Proof.
  revert d. induction t as [|x t IH]; intros d; cbv zeta; simpl.
  - split; [now left|]. split; [apply kltb_irrefl | intros ? []].
  - specialize (IH (if kltb d x then x else d)). cbv zeta in IH.
    destruct IH as (Hin & Hd & Ht).
    set (r := fold_left _ t _) in *.
    assert (Hdx : kltb (if kltb d x then x else d) d = false
                  /\ kltb (if kltb d x then x else d) x = false).
    { destruct (kltb d x) eqn:E.
      - split; [now apply kltb_asym | apply kltb_irrefl].
      - split; [apply kltb_irrefl | exact E]. }
    destruct Hdx as [H1 H2]. split; [|split].
    + destruct Hin as [Hin|Hin]; [|now right; right].
      rewrite <- Hin. destruct (kltb d x); [right; now left | now left].
    + eapply kltb_false_trans; eassumption.
    + intros y [<-|Hy]; [eapply kltb_false_trans; eassumption | now apply Ht].
Qed.

Lemma max_date_spec (ds : list Date) :
  ds <> [] ->
  exists latest, max_date ds = Some latest /\ In latest ds
                 /\ forall d, In d ds -> kltb latest d = false.
Proof.
  destruct ds as [|d t]; [congruence|]. intros _.
  destruct (fold_max_spec t d) as (Hin & Hd & Ht).
  eexists. split; [reflexivity|]. split; [exact Hin|].
  intros x [<-|Hx]; [exact Hd | now apply Ht].
Qed.

Lemma sub_months_11 (d : Date) :
  1 <= month d <= 12 ->
  12 * year (sub_months d 11) + month (sub_months d 11) = 12 * year d + month d - 11
  /\ 1 <= month (sub_months d 11) <= 12
  /\ day (sub_months d 11) <= day d
  /\ kltb (sub_months d 11) d = true.
Proof.
  intros Hm. unfold sub_months. cbv zeta. cbn [year month day].
  set (t := year d * 12 + (month d - 1) - 11).
  assert (Et : t = year d * 12 + (month d - 1) - 11) by reflexivity. clearbody t.
  pose proof (Z.div_mod t 12 ltac:(lia)) as Edm.
  pose proof (Z.mod_pos_bound t 12 ltac:(lia)) as Hmod.
  split; [lia|]. split; [lia|]. split; [lia|].
  unfold kltb. change (@cmp Date _) with date_cmp.
  unfold date_cmp. cbn [year month day].
  destruct (Z.compare_spec (t / 12) (year d)) as [Ey|Hy|Hy]; [|reflexivity|lia].
  destruct (Z.compare_spec (t mod 12 + 1) (month d)) as [Em|Hlt|Hgt];
    [lia | reflexivity | lia].
Qed.

(** X20. The lookback cutoff of the district ranking is undefined for an
    empty state series; otherwise it lies exactly eleven calendar months
    before the latest date of the series, strictly before that date, with
    the day of the month never moved forward. *)
Theorem lookback_cutoff (monthly : list MonthlyRow) :
  Forall (fun m => 1 <= month (m_date m) <= 12) monthly ->
  (monthly = [] -> last_12_cutoff monthly = None)
  /\ (monthly <> [] ->
      exists latest cutoff,
        last_12_cutoff monthly = Some cutoff
        /\ In latest (map m_date monthly)
        /\ (forall d, In d (map m_date monthly) -> kltb latest d = false)
        /\ 12 * year cutoff + month cutoff = 12 * year latest + month latest - 11
        /\ 1 <= month cutoff <= 12
        /\ day cutoff <= day latest
        /\ kltb cutoff latest = true).
Proof.
  intros Hm. split; [intros ->; reflexivity|]. intros Hne.
  destruct (max_date_spec (map m_date monthly)) as (latest & E & Hin & Hmax).
  { intros E. apply map_eq_nil in E. contradiction. }
  exists latest, (sub_months latest 11). unfold last_12_cutoff. rewrite E.
  split; [reflexivity|]. split; [exact Hin|]. split; [exact Hmax|].
  apply sub_months_11.
  apply in_map_iff in Hin. destruct Hin as (m & <- & Hin).
  rewrite Forall_forall in Hm. now apply Hm.
Qed.

Lemma lookback_cutoff_witness :
  Forall (fun m => 1 <= month (m_date m) <= 12) thirteen_months
  /\ thirteen_months <> []
  /\ exists latest cutoff,
       last_12_cutoff thirteen_months = Some cutoff
       /\ In latest (map m_date thirteen_months)
       /\ kltb cutoff latest = true.
Proof.
  assert (H : Forall (fun m => 1 <= month (m_date m) <= 12) thirteen_months).
  { vm_compute. repeat constructor; discriminate. }
  assert (Hne : thirteen_months <> []) by (vm_compute; discriminate).
  split; [exact H|]. split; [exact Hne|].
  destruct (proj2 (lookback_cutoff thirteen_months H) Hne)
    as (latest & cutoff & E & Hin & _ & _ & _ & _ & Hlt).
  exists latest, cutoff. repeat split; assumption.
Defined.

Lemma state_monthly_dates (rows : list Row) :
  map m_date (state_monthly rows) = group_keys date rows.
Proof. unfold state_monthly. rewrite groupby_agg_map, map_map. simpl. apply map_id. Qed.

Lemma in_entity_monthly (entity : Row -> string) (rows : list Row) (r : Row) :
  In r rows ->
  exists p, In p (entity_monthly entity rows)
            /\ e_entity p = entity r /\ e_date p = date r.
Proof.
  intros Hr. unfold entity_monthly. rewrite groupby_agg_map.
  exists (entity_agg (entity r, date r)
            (group_rows (fun x => (entity x, date x)) (entity r, date r) rows)).
  split; [|split; reflexivity].
  apply (in_map (fun k => entity_agg k (group_rows _ k rows))).
  apply in_group_keys. eauto.
Qed.

Lemma entity_monthly_entities (entity : Row -> string) (rows : list Row)
    (p : EntityPoint) :
  In p (entity_monthly entity rows) -> exists r, In r rows /\ entity r = e_entity p.
Proof.
  intros Hp. unfold entity_monthly in Hp. apply in_groupby_agg in Hp.
  destruct Hp as (k & Hk & ->). apply in_group_keys in Hk.
  destruct Hk as (r & Hr & <-). exists r. split; [exact Hr | reflexivity].
Qed.

Lemma lastn_nonempty {A} (n : nat) (l : list A) :
  (0 < n)%nat -> l <> [] -> lastn n l <> [].
Proof.
  intros Hn Hl E. apply (f_equal (@length A)) in E. rewrite length_lastn in E.
  change (length (@nil A)) with 0%nat in E.
  destruct l; [congruence | simpl length in E; lia].
Qed.

(** X21. When at least one row survives the cleaning and the dates have
    months 1..12, the second recommendation is never the anonymous
    fallback: the points of the latest date always fall inside the lookback
    window, so the recommendation names between one and three districts,
    each a district of the cleaned frame. *)
Theorem mobile_units_names_districts (raw : list RawRow) (state_filter : string) :
  clean raw state_filter <> [] ->
  Forall (fun r => 1 <= month (date r) <= 12) (clean raw state_filter) ->
  let data := load_and_prepare raw state_filter in
  exists names,
    (1 <= length names <= 3)%nat
    /\ (forall n, In n names -> exists r, In r (df data) /\ district r = n)
    /\ rec_mobile_units (monthly data) (district_monthly data)
       = Ok ([Lit "Deploy mobile enrolment units in low-performing districts ("]
             ++ join [Lit ", "] (map (fun d => [Lit d]) names) ++ [Lit ")."]).
Proof.
  intros Hne Hm. cbv zeta. unfold load_and_prepare, aggregate. simpl.
  set (rows := clean raw state_filter) in *.
  set (m := state_monthly rows).
  set (dm := entity_monthly district rows).
  (* the latest date and its cutoff *)
  assert (Hmne : m <> []).
  { subst m. intros E. apply (f_equal (map m_date)) in E.
    rewrite state_monthly_dates in E. simpl in E.
    destruct rows as [|r t]; [congruence|].
    assert (Hin : In (date r) (group_keys date (r :: t))).
    { apply in_group_keys. exists r. split; [now left | reflexivity]. }
    rewrite E in Hin. exact Hin. }
  assert (Hmm : Forall (fun e => 1 <= month (m_date e) <= 12) m).
  { apply Forall_forall. intros e He. apply (in_map m_date) in He.
    subst m. rewrite state_monthly_dates in He. apply in_group_keys in He.
    destruct He as (r & Hr & <-). rewrite Forall_forall in Hm. now apply Hm. }
  destruct (max_date_spec (map m_date m)) as (latest & Emax & Hlatest & _).
  { intros E. apply map_eq_nil in E. contradiction. }
  assert (Hlm : 1 <= month latest <= 12).
  { apply in_map_iff in Hlatest. destruct Hlatest as (e & <- & He).
    rewrite Forall_forall in Hmm. now apply Hmm. }
  destruct (sub_months_11 latest Hlm) as (_ & _ & _ & Hlt).
  (* a point of the latest date is inside the window *)
  subst m. rewrite state_monthly_dates in Hlatest. apply in_group_keys in Hlatest.
  destruct Hlatest as (r & Hr & Er).
  destruct (in_entity_monthly district rows r Hr) as (p & Hp & _ & Ed).
  fold dm in Hp.
  set (recent := recent_points (state_monthly rows) dm).
  assert (Hrec : In p recent).
  { subst recent. unfold recent_points, last_12_cutoff. rewrite Emax.
    apply filter_In. split; [exact Hp|].
    rewrite Ed, Er. apply negb_true_iff. now apply kltb_asym. }
  assert (Hsub : forall q, In q recent -> In q dm).
  { intros q Hq. subst recent. unfold recent_points in Hq.
    destruct (last_12_cutoff _); [|exact Hq]. now apply filter_In in Hq. }
  (* the ranking and its tail *)
  destruct (dist_totals_of_facts recent) as (_ & _ & Hdist & _).
  assert (Hrank : dist_totals_of recent <> []).
  { intros E. assert (Hin : In (e_entity p) (map fst (dist_totals_of recent))).
    { apply Hdist. exists p. split; [exact Hrec | reflexivity]. }
    rewrite E in Hin. exact Hin. }
  unfold rec_mobile_units. fold recent. unfold tail.
  set (bottom := lastn 3 (dist_totals_of recent)).
  assert (Hb : bottom <> []) by (apply lastn_nonempty; [lia | exact Hrank]).
  assert (Lb : (1 <= length (map fst bottom) <= 3)%nat).
  { rewrite length_map. subst bottom. rewrite length_lastn.
    destruct (dist_totals_of recent); [congruence | simpl length; lia]. }
  assert (Hnames : forall n, In n (map fst bottom) ->
                             exists r0, In r0 rows /\ district r0 = n).
  { intros n Hn. apply in_map_iff in Hn. destruct Hn as (x & <- & Hx).
    subst bottom. apply in_lastn in Hx. apply (in_map fst) in Hx.
    apply Hdist in Hx. destruct Hx as (q & Hq & <-).
    apply (entity_monthly_entities district rows). apply Hsub. exact Hq. }
  exists (map fst bottom). split; [exact Lb|]. split; [exact Hnames|].
  destruct (map fst bottom) as [|n ns]; [simpl in Lb; lia | reflexivity].
Qed.

Lemma mobile_units_names_districts_witness :
  clean [maharashtra_row; zero_total_row] "Maharashtra" <> []
  /\ Forall (fun r => 1 <= month (date r) <= 12)
       (clean [maharashtra_row; zero_total_row] "Maharashtra")
  /\ exists names,
       (1 <= length names <= 3)%nat
       /\ rec_mobile_units
            (monthly (load_and_prepare [maharashtra_row; zero_total_row] "Maharashtra"))
            (district_monthly
               (load_and_prepare [maharashtra_row; zero_total_row] "Maharashtra"))
          = Ok ([Lit "Deploy mobile enrolment units in low-performing districts ("]
                ++ join [Lit ", "] (map (fun d => [Lit d]) names) ++ [Lit ")."]).
Proof.
  assert (H1 : clean [maharashtra_row; zero_total_row] "Maharashtra" <> [])
    by (vm_compute; discriminate).
  assert (H2 : Forall (fun r => 1 <= month (date r) <= 12)
                 (clean [maharashtra_row; zero_total_row] "Maharashtra")).
  { vm_compute. repeat constructor; discriminate. }
  split; [exact H1|]. split; [exact H2|].
  destruct (mobile_units_names_districts _ _ H1 H2) as (names & L & _ & E).
  exists names. split; [exact L | exact E].
Defined.

(** ** The outputs as a whole *)



Lemma count_true_bounds {A} (f : A -> bool) (l : list A) :
  0 <= count_true f l <= Z.of_nat (length l).
Proof.
  unfold count_true. pose proof (filter_length_le f l). lia.
Qed.

(** X23. The three counts of the risk chart are the counts quoted by the
    risk insight, its saturation count is the one quoted by the fifth
    recommendation, and each count lies between zero and the number of
    distinct districts of the district table. *)
Theorem risk_counts_agree (data : Data) :
  let flags := _district_saturation_flags (district_monthly data) in
  let districts := Z.of_nat (length (group_keys e_entity (district_monthly data))) in
  exists sat low vol,
    fig_risk_summary (build_figures data)
    = [("Saturation Risk"%string, sat); ("Low Momentum"%string, low);
       ("Volatile"%string, vol)]
    /\ insight_risk_summary (district_monthly data)
       = Ok (mkInsight
               "Count of districts flagged for saturation, low momentum, and volatility"
               [Lit "Saturation risk: "; Int sat; Lit "; Low momentum: "; Int low;
                Lit "; Volatile: "; Int vol; Lit "."]
               "Directs attention to underperforming or unstable areas.")
    /\ rec_saturation flags
       = Ok [Lit "Shift focus from enrolment to service quality in saturated districts (approx. ";
             Int sat; Lit " flagged)."]
    /\ 0 <= sat <= districts /\ 0 <= low <= districts /\ 0 <= vol <= districts.
Proof.
  cbv zeta.
  destruct (flag_rows_facts (district_monthly data)) as (_ & _ & <-).
  do 3 eexists. split; [reflexivity|]. split; [reflexivity|]. split; [reflexivity|].
  repeat split; apply count_true_bounds.
Qed.

(** ** A district whose total never changes *)

Lemma const_sum (c : Z) (w : list Z) :
  Forall (fun x => x = c) w -> sumZ w = Z.of_nat (length w) * c.
Proof.
  induction 1 as [|x t Hx Ht IH]; [reflexivity|].
  cbn [length]. rewrite Nat2Z.inj_succ. unfold sumZ in *. cbn [fold_right]. lia.
Qed.

Lemma const_mean (c : Z) (w : list Z) :
  Forall (fun x => x = c) w -> w <> [] ->
  exists q, meanZ w = Fin q /\ q == inject_Z c.
Proof.
  intros F Hne. rewrite (meanZ_nonempty _ Hne), (const_sum c w F).
  eexists. split; [reflexivity|].
  assert (Hn : ~ inject_Z (Z.of_nat (length w)) == 0).
  { intros E. unfold Qeq in E. simpl in E.
    destruct w; [congruence | simpl length in E; lia]. }
  rewrite inject_Z_mult. field. exact Hn.
Qed.

Lemma const_max (c : Z) (w : list Z) :
  Forall (fun x => x = c) w -> w <> [] -> maxZ w = ofZ c.
Proof.
  intros F Hne. destruct (maxZ_bounds w Hne) as (M & -> & _ & Hin).
  rewrite Forall_forall in F. now rewrite (F M Hin).
Qed.

Lemma const_sq_dev (c : Z) (mu : Q) (w : list Z) :
  Forall (fun x => x = c) w -> mu == inject_Z c ->
  fold_right (fun x acc => (inject_Z x - mu) * (inject_Z x - mu) + acc)%Q 0%Q w == 0.
Proof.
  intros F Hmu. induction F as [|x t Hx Ht IH]; simpl; [reflexivity|].
  rewrite IH, Hx, Hmu. ring.
Qed.

Lemma const_var (c : Z) (w : list Z) (v : Q) :
  Forall (fun x => x = c) w -> varZ w = Some v -> v == 0.
Proof.
  intros F E. unfold varZ in E.
  destruct (length w <? 2)%nat eqn:L; [discriminate|]. injection E as <-.
  apply Nat.ltb_ge in L.
  assert (Hne : w <> []) by (intros ->; simpl in L; lia).
  destruct (const_mean c w F Hne) as (q & Eq & Hq).
  rewrite (meanZ_nonempty _ Hne) in Eq. injection Eq as Eq.
  unfold sum_sq_dev. cbv zeta. rewrite Eq.
  rewrite (const_sq_dev c q w F Hq). unfold Qdiv. apply Qmult_0_l.
Qed.

Lemma Qsquare_nonneg (y : Q) : (0 <= y * y)%Q.
Proof.
  destruct (Qlt_le_dec y 0) as [Hn|Hp].
  - assert (E : y * y == (- y) * (- y)) by ring. rewrite E.
    apply Qmult_le_0_compat; lra.
  - now apply Qmult_le_0_compat.
Qed.

Lemma sq_dev_nonneg (mu : Q) (w : list Z) :
  (0 <= fold_right (fun x acc => (inject_Z x - mu) * (inject_Z x - mu) + acc) 0 w)%Q.
Proof.
  induction w as [|x t IH]; simpl; [apply Qle_refl|].
  pose proof (Qsquare_nonneg (inject_Z x - mu)) as H.
  set (sq := ((inject_Z x - mu) * (inject_Z x - mu))%Q) in *. clearbody sq.
  lra.
Qed.

Lemma varZ_nonneg (w : list Z) (v : Q) : varZ w = Some v -> (0 <= v)%Q.
Proof.
  unfold varZ. destruct (length w <? 2)%nat eqn:L; [discriminate|].
  intros [= <-]. apply Nat.ltb_ge in L.
  apply Qle_shift_div_l.
  - rewrite <- (Zlt_Qlt 0). lia.
  - rewrite Qmult_0_l. apply sq_dev_nonneg.
Qed.

Lemma rolling_var_nonneg (w minp j : nat) (s : list Z) (v : Q) :
  nth j (rolling None w minp varZ s) None = Some v -> (0 <= v)%Q.
Proof.
  intros E. destruct (Nat.lt_ge_cases j (length s)) as [Hj|Hj].
  - rewrite nth_rolling in E by assumption. unfold rolling_at in E.
    destruct (minp <=? _)%nat; [|discriminate]. now apply varZ_nonneg in E.
  - rewrite nth_overflow in E; [discriminate|].
    unfold rolling. now rewrite length_map, length_seq.
Qed.

Lemma somes_Forall {A} (P : A -> Prop) (l : list (option A)) :
  (forall x, In (Some x) l -> P x) -> Forall P (somes l).
Proof.
  induction l as [|[x|] t IH]; intros H; simpl.
  - constructor.
  - constructor; [apply H; now left | apply IH; intros y Hy; apply H; now right].
  - apply IH. intros y Hy. apply H. now right.
Qed.

Lemma std12_values_nonneg (dm : list EntityPoint) :
  Forall (fun v => 0 <= v)%Q (somes (map std12 (with_windows dm))).
Proof.
  apply somes_Forall. intros v Hv. apply in_map_iff in Hv.
  destruct Hv as (r & Er & Hr). unfold with_windows in Hr.
  apply in_map_iff in Hr. destruct Hr as (rj & <- & _).
  unfold window_row, transform_at in Er. simpl in Er.
  now apply rolling_var_nonneg in Er.
Qed.

Lemma middle_pair_nonneg (vs : list Q) (a b : Q) :
  Forall (fun v => 0 <= v)%Q vs -> middle_pair vs = Some (a, b) ->
  (0 <= a)%Q /\ (0 <= b)%Q.
Proof.
  intros F E. unfold middle_pair in E.
  set (s := sort_by Qle_bool vs) in *.
  assert (Fs : Forall (fun v => 0 <= v)%Q s).
  { eapply Permutation_Forall; [apply Permutation_sym, sort_by_perm | exact F]. }
  assert (Hnth : forall i, (0 <= nth i s 0)%Q).
  { intros i. destruct (nth_in_or_default i s 0%Q) as [Hin | E0]; [|rewrite E0; apply Qle_refl].
    rewrite Forall_forall in Fs. now apply Fs. }
  destruct (length s); [discriminate|].
  destruct (Nat.even _); injection E as <- <-; split; apply Hnth.
Qed.

Lemma root_gt_threshold_zero (v : Q) (m : Q * Q) :
  v == 0 -> (0 <= fst m)%Q -> (0 <= snd m)%Q -> root_gt_threshold v m = false.
Proof.
  intros Hv Ha Hb. unfold root_gt_threshold.
  apply andb_false_iff. left. apply Qltb_false_le. lra.
Qed.

(** X24. A district whose monthly total is the same positive number at
    every point is never flagged: its saturation index, when defined, is 1,
    its recent mean is not below half its 12-window mean, and its standard
    deviation is zero, which exceeds no threshold. *)
Theorem steady_district_never_flagged (dm : list EntityPoint) (d : string) (c : Z) :
  0 < c ->
  (forall p, In p dm -> e_entity p = d -> e_total p = c) ->
  forall f, In f (_district_saturation_flags dm) -> f_district f = d ->
    saturation_risk f = false /\ low_momentum f = false /\ volatile f = false
    /\ ((3 <= points_of d dm)%nat -> feq (f_saturation_index f) (Fin 1)).
Proof.
  intros Hc Hconst f Hf Ed.
  unfold _district_saturation_flags in Hf.
  apply (Permutation_in _ (sort_by_perm _ _)) in Hf.
  apply in_map_iff in Hf. destruct Hf as (r & <- & Hr).
  fold (last_snapshot dm) in Hr.
  set (thr := middle_pair (somes (map std12 (with_windows (sort_by point_leb dm))))).
  assert (Hthr : forall a b, thr = Some (a, b) -> (0 <= a)%Q /\ (0 <= b)%Q).
  { intros a b. apply middle_pair_nonneg, std12_values_nonneg. }
  clearbody thr.
  apply in_last_snapshot in Hr. destruct Hr as (p & j & -> & Hp & Hj).
  simpl in Ed. subst d.
  unfold flag_row, window_row. simpl.
  rewrite !(snapshot_row_stat _ _ _ _ dm p j Hj).
  set (s := map e_total (group_rows e_entity (e_entity p) (sort_by point_leb dm))).
  assert (Ls : length s = points_of (e_entity p) dm)
    by (subst s; apply series_length).
  assert (Fs : Forall (fun x => x = c) s).
  { subst s. apply Forall_map. apply Forall_forall. intros q Hq.
    unfold group_rows in Hq. apply filter_In in Hq. destruct Hq as [Hq Ek].
    apply keqb_eq in Ek. apply Hconst; [|exact Ek].
    now apply (Permutation_in _ (sort_by_perm point_leb dm)). }
  assert (Fl : forall n, Forall (fun x => x = c) (lastn n s)).
  { intros n. apply Forall_forall. intros x Hx. apply in_lastn in Hx.
    rewrite Forall_forall in Fs. now apply Fs. }
  assert (QC : (0 < inject_Z c)%Q) by (rewrite <- (Zlt_Qlt 0); lia).
  unfold rolling_at. rewrite !length_lastn.
  assert (Hw : forall n, (0 < Nat.min n (length s))%nat -> lastn n s <> []).
  { intros n Hn E. apply (f_equal (@length Z)) in E. rewrite length_lastn in E.
    change (length (@nil Z)) with 0%nat in E. lia. }
  destruct (Nat.leb_spec 3 (Nat.min 3 (length s))) as [L3|L3].
  - (* at least three points *)
    destruct (const_mean c (lastn 3 s) (Fl 3%nat)) as (q3 & -> & Hq3);
      [apply Hw; lia|].
    assert (L12 : (3 <=? Nat.min 12 (length s))%nat = true)
      by (apply Nat.leb_le; lia).
    rewrite L12, (const_max c (lastn 12 s) (Fl 12%nat)) by (apply Hw; lia).
    unfold ofZ, fdiv. rewrite Qeq_bool_inject_Z_0.
    destruct (Z.eqb_spec c 0) as [E0|_]; [lia|].
    assert (Hidx : q3 / inject_Z c == 1).
    { rewrite Hq3. field. lra. }
    split; [|split; [|split]].
    + simpl. apply Qltb_false_le. rewrite Hidx. discriminate.
    + destruct (6 <=? Nat.min 12 (length s))%nat; [|reflexivity].
      destruct (const_mean c (lastn 12 s) (Fl 12%nat)) as (q12 & -> & Hq12);
        [apply Hw; lia|].
      simpl. apply Qltb_false_le. rewrite Hq3, Hq12. lra.
    + destruct (6 <=? Nat.min 12 (length s))%nat; [|reflexivity].
      destruct (varZ (lastn 12 s)) as [v|] eqn:Ev; [|reflexivity].
      destruct thr as [[a b]|]; [|reflexivity]. simpl.
      destruct (Hthr a b eq_refl) as [Ha Hb].
      apply root_gt_threshold_zero; [|exact Ha | exact Hb].
      exact (const_var c _ v (Fl 12%nat) Ev).
    + intros _. simpl. exact Hidx.
  - (* fewer than three points *)
    assert (L12 : (3 <=? Nat.min 12 (length s))%nat = false)
      by (apply Nat.leb_gt; lia).
    assert (L6 : (6 <=? Nat.min 12 (length s))%nat = false)
      by (apply Nat.leb_gt; lia).
    rewrite L12, L6. simpl. repeat split. intros H3. lia.
Qed.

Lemma steady_district_never_flagged_witness :
  0 < 100
  /\ (forall p, In p three_months_of_pune ->
                e_entity p = "Pune"%string -> e_total p = 100)
  /\ forall f, In f (_district_saturation_flags three_months_of_pune) ->
       f_district f = "Pune"%string ->
       saturation_risk f = false /\ low_momentum f = false /\ volatile f = false
       /\ ((3 <= points_of "Pune" three_months_of_pune)%nat ->
           feq (f_saturation_index f) (Fin 1)).
Proof.
  assert (H1 : 0 < 100) by lia.
  assert (H2 : forall p, In p three_months_of_pune ->
                         e_entity p = "Pune"%string -> e_total p = 100).
  { intros p Hp _. unfold three_months_of_pune in Hp. simpl in Hp.
    destruct Hp as [<-|[<-|[<-|[]]]]; reflexivity. }
  split; [exact H1|]. split; [exact H2|].
  exact (steady_district_never_flagged three_months_of_pune "Pune" 100 H1 H2).
Defined.
